(** * College Directory: registration-number allocation and the two API routes

    A shallow embedding of [server.js]: the promisified sqlite3 helpers
    ([dbRun], [dbGet], [dbAll]), the allocator [generateRegistrationNumber]
    and the handlers of [POST /api/register] and [GET /api/students].

    Strings are sequences of 8-bit code units (code points below U+0100).
    On such strings the byte order SQLite's BINARY collation uses on UTF-8
    coincides with the order of the code units, which is [String.leb]. *)

From Stdlib Require Import ZArith QArith String Ascii List Lia Bool.
From Stdlib Require Import DecimalString DecimalPos DecimalZ.
From stdpp Require Import gmap strings list sorting.

Local Open Scope string_scope.
Local Open Scope list_scope.
Local Open Scope Z_scope.

(** ** Helpers on strings *)

Fixpoint string_drop (n : nat) (s : string) : string :=
  match n, s with
  | O, _ => s
  | S n', String _ s' => string_drop n' s'
  | S _, EmptyString => EmptyString
  end.

Fixpoint string_forall (p : ascii → bool) (s : string) : bool :=
  match s with
  | EmptyString => true
  | String c s' => p c && string_forall p s'
  end.

Definition code (c : ascii) : Z := Z.of_N (N_of_ascii c).

Definition is_digit (c : ascii) : bool := (48 <=? code c) && (code c <=? 57).

(** ** The JavaScript primitives the server uses *)

Module JS.

(** Values that [express.json()] or [express.urlencoded()] can put in a
    request body. [Undefined] is what destructuring yields for a key
    that is not there. *)
#[local] Unset Elimination Schemes.
Inductive value : Type :=
| Undefined
| Null
| Bool (b : bool)
| Num (q : Q)
| Str (s : string)
| Arr (items : list value)
| Obj (props : list (string * value)).
#[local] Set Elimination Schemes.

(** ToBoolean, as the [!x] and [if (x)] tests apply it. *)
Definition truthy (v : value) : bool :=
  match v with
  | Undefined | Null => false
  | Bool b => b
  | Num q => negb (Qeq_bool q 0)
  | Str s => negb (String.eqb s "")
  | Arr _ | Obj _ => true
  end.

(** WhiteSpace and LineTerminator code units below U+0100: TAB, LF, VT,
    FF, CR, SP and NBSP. *)
Definition is_white (c : ascii) : bool :=
  let n := code c in
  ((9 <=? n) && (n <=? 13)) || (n =? 32) || (n =? 160).

Fixpoint trimStart (s : string) : string :=
  match s with
  | EmptyString => EmptyString
  | String c s' => if is_white c then trimStart s' else s
  end.

Definition trimEnd (s : string) : string :=
  String.rev (trimStart (String.rev s)).

(** [String.prototype.trim] *)
Definition trim (s : string) : string := trimEnd (trimStart s).

(** [s.slice(start)]: a negative [start] counts from the end, and both
    ends are clamped to the string. *)
Definition slice (start : Z) (s : string) : string :=
  let len := Z.of_nat (String.length s) in
  let from := if start <? 0 then Z.max (len + start) 0 else Z.min start len in
  string_drop (Z.to_nat from) s.

Definition digit_value (c : ascii) : option Z :=
  if is_digit c then Some (code c - 48) else None.

(** The value of the longest prefix of decimal digits, [acc] being the
    value of the digits read so far ([None]: no digit yet). *)
Fixpoint digits_prefix (s : string) (acc : option Z) : option Z :=
  match s with
  | EmptyString => acc
  | String c s' =>
      match digit_value c with
      | Some d => digits_prefix s' (Some (10 * default 0 acc + d))
      | None => acc
      end
  end.

(** [parseInt(s, 10)]: leading white space is skipped, one sign is
    accepted, then the longest run of digits is read; [None] is NaN. *)
Definition parseInt10 (s : string) : option Z :=
  match trimStart s with
  | String "-" r => Z.opp <$> digits_prefix r None
  | String "+" r => digits_prefix r None
  | r => digits_prefix r None
  end.

(** [String(n)] for an integer-valued number (below 1e21 in size). *)
Definition Number_toString (n : Z) : string :=
  NilZero.string_of_int (Z.to_int n).

(** [fill] repeated and cut to [n] code units. *)
Fixpoint fill_prefix (n : nat) (fill cur : string) : string :=
  match n with
  | O => EmptyString
  | S n' =>
      match cur with
      | String c r => String c (fill_prefix n' fill r)
      | EmptyString =>
          match fill with
          | String c r => String c (fill_prefix n' fill r)
          | EmptyString => EmptyString
          end
      end
  end.

(** [s.padStart(maxLength, fillString)] *)
Definition padStart (maxLength : nat) (fillString : string) (s : string) : string :=
  let len := String.length s in
  if (maxLength <=? len)%nat then s
  else if String.eqb fillString "" then s
  else fill_prefix (maxLength - len) fillString fillString +:+ s.

(** [xs.join(sep)] on an array of strings *)
Definition join (sep : string) (xs : list string) : string :=
  String.concat sep xs.

End JS.

(** ** The SQLite operators the statements use *)

Module Sqlite.

(** ASCII case folding of the LIKE operator: only A-Z are folded. *)
Definition lower (c : ascii) : ascii :=
  if (65 <=? code c) && (code c <=? 90)
  then ascii_of_N (N_of_ascii c + 32) else c.

(** [s LIKE pat] without ESCAPE: [%] matches any run of characters, [_]
    any single one, and any other character matches itself up to ASCII
    case. *)
Fixpoint like (pat s : string) : bool :=
  match pat with
  | EmptyString => match s with EmptyString => true | _ => false end
  | String c pat' =>
      if Ascii.eqb c "%" then
        (fix any (t : string) : bool :=
           like pat' t || match t with
                          | EmptyString => false
                          | String _ t' => any t'
                          end) s
      else
        match s with
        | EmptyString => false
        | String d s' =>
            (Ascii.eqb c "_" || Ascii.eqb (lower c) (lower d)) && like pat' s'
        end
  end.

End Sqlite.


(** ** The [students] table *)

Module Student.
(** One row, with the columns of the CREATE TABLE statement. *)
Record t : Type := mk {
  id : Z;
  reg_no : string;
  name : string;
  email : string;
  department : string;
  address : string;
  division : string
}.
End Student.

(** The rows in insertion order, and the largest id the table has ever
    handed out (what AUTOINCREMENT keeps in [sqlite_sequence]). *)
Record table : Type := mkTable {
  rows : list Student.t;
  sequence : Z
}.

(** The three statements the server prepares, with their bound values. *)
Inductive sql : Type :=
| SelectLatestRegNo (pattern : string)
    (* SELECT reg_no FROM students WHERE reg_no LIKE ? ORDER BY reg_no DESC LIMIT 1 *)
| InsertStudent (reg_no name email department address division : string)
    (* INSERT INTO students (reg_no, name, email, department, address, division) VALUES (?, ?, ?, ?, ?, ?) *)
| SelectStudents (department : option string).
    (* SELECT id, reg_no, ... FROM students [WHERE department = ?] ORDER BY id DESC *)

(** What a rejected promise or a [throw] carries. *)
Inductive error : Type :=
| SqliteError (errcode : string) (message : string)
| TypeError (message : string).

Inductive outcome (A : Type) : Type :=
| Return (a : A)
| Throw (e : error).
Arguments Return {A} a.
Arguments Throw {A} e.

(** ORDER BY reg_no DESC and ORDER BY id DESC. *)
Definition reg_no_desc (a b : Student.t) : Prop :=
  String.le (Student.reg_no b) (Student.reg_no a).
Definition id_desc (a b : Student.t) : Prop :=
  Student.id b ≤ Student.id a.

#[global] Instance reg_no_desc_dec : RelDecision reg_no_desc :=
  λ a b, decide (String.le (Student.reg_no b) (Student.reg_no a)).
#[global] Instance id_desc_dec : RelDecision id_desc :=
  λ a b, decide (Student.id b ≤ Student.id a).

(** The error of an INSERT that would break [reg_no TEXT UNIQUE]. *)
Definition unique_violation : error :=
  SqliteError "SQLITE_CONSTRAINT" "UNIQUE constraint failed: students.reg_no".

Definition max_id (rs : list Student.t) : Z :=
  foldr (λ r m, Z.max (Student.id r) m) 0 rs.

(** The engine on one statement: the rows it yields and the table it
    leaves. A statement that fails leaves the table as it was. *)
Definition exec (q : sql) (t : table) : outcome (list Student.t) * table :=
  match q with
  | SelectLatestRegNo pattern =>
      let matching := filter (λ r, Sqlite.like pattern (Student.reg_no r) = true) (rows t) in
      (Return (take 1 (merge_sort reg_no_desc matching)), t)
  | InsertStudent reg name email department address division =>
      if existsb (λ r, String.eqb (Student.reg_no r) reg) (rows t)
      then (Throw unique_violation, t)
      else
        let rowid := Z.max (sequence t) (max_id (rows t)) + 1 in
        (Return [],
         mkTable (rows t ++ [Student.mk rowid reg name email department address division])
                 rowid)
  | SelectStudents None =>
      (Return (merge_sort id_desc (rows t)), t)
  | SelectStudents (Some d) =>
      let matching := filter (λ r, Student.department r = d) (rows t) in
      (Return (merge_sort id_desc matching), t)
  end.

(** ** The process: database, clock, and what the environment does *)

(** [faults] is the environment's plan for the store calls to come, one
    entry per call: [Some e] makes that call fail with [e] (I/O error,
    locked file, full disk), [None] lets the engine run. An exhausted plan
    means no further fault. [trace] records every statement handed to the
    driver, [console] what [console.error] printed. *)
Record world : Type := mkWorld {
  database : table;
  year : Z;
  faults : list (option error);
  trace : list sql;
  console : list (string * error)
}.

Definition io (A : Type) : Type := world → outcome A * world.

#[global] Instance io_ret : MRet io := λ A a w, (Return a, w).
#[global] Instance io_bind : MBind io := λ A B f m w,
  match m w with
  | (Return a, w') => f a w'
  | (Throw e, w') => (Throw e, w')
  end.

Definition throw {A} (e : error) : io A := λ w, (Throw e, w).

(** [try { body } catch (err) { handler(err) }] *)
Definition try_catch {A} (body : io A) (handler : error → io A) : io A := λ w,
  match body w with
  | (Return a, w') => (Return a, w')
  | (Throw e, w') => handler e w'
  end.

Definition console_error (label : string) (err : error) : io unit := λ w,
  (Return tt,
   mkWorld (database w) (year w) (faults w) (trace w) (console w ++ [(label, err)])).

(** [new Date().getFullYear()] *)
Definition getFullYear : io Z := λ w, (Return (year w), w).

(** One call into the driver: the statement is recorded, then either the
    environment's fault or the engine's own result comes back through the
    callback. *)
Definition driver (q : sql) : io (list Student.t) := λ w,
  let logged := trace w ++ [q] in
  match faults w with
  | Some e :: plan =>
      (Throw e, mkWorld (database w) (year w) plan logged (console w))
  | None :: plan =>
      let '(r, t) := exec q (database w) in
      (r, mkWorld t (year w) plan logged (console w))
  | [] =>
      let '(r, t) := exec q (database w) in
      (r, mkWorld t (year w) [] logged (console w))
  end.

(** The promisified helpers: [err] rejects, otherwise the promise resolves
    with the statement object, the first row or all rows. *)
Definition dbRun (q : sql) : io unit :=
  _ ← driver q; mret tt.

Definition dbGet (q : sql) : io (option Student.t) :=
  found ← driver q; mret (head found).

Definition dbAll (q : sql) : io (list Student.t) :=
  driver q.

(** ** The allocator *)

(** [`COL${currentYear}`] *)
Definition prefix (currentYear : Z) : string :=
  "COL" +:+ JS.Number_toString currentYear.

(** The value of [nextSequence] once the [if (latest && latest.reg_no)]
    block is through. *)
Definition nextSequence (latest : option Student.t) : Z :=
  match latest with
  | Some row =>
      if JS.truthy (JS.Str (Student.reg_no row)) then
        let lastSeqStr := JS.slice (-3) (Student.reg_no row) in
        match JS.parseInt10 lastSeqStr with
        | Some lastSeq => lastSeq + 1
        | None => 1
        end
      else 1
  | None => 1
  end.

(** [String(nextSequence).padStart(3, '0')] *)
Definition sequencePart (nextSequence : Z) : string :=
  JS.padStart 3 "0" (JS.Number_toString nextSequence).

(** Generates the next registration number for the current year.
    Format: COL{YYYY}{NNN}. *)
Definition generateRegistrationNumber : io string :=
  currentYear ← getFullYear;
  latest ← dbGet (SelectLatestRegNo (prefix currentYear +:+ "%"));
  mret (prefix currentYear +:+ sequencePart (nextSequence latest)).

(** ** The routes *)

Inductive json : Type :=
| Registered (reg_no : string) (name email department address division : JS.value)
    (* { success: true, student: { reg_no, name, email, department, address, division } } *)
| Students (students : list Student.t)
    (* { success: true, students } *)
| Failure (error : string).
    (* { success: false, error } *)

Record response : Type := mkResponse {
  status : Z;
  body : json
}.

(** [const { k } = obj]: a key that is not there yields [undefined]. *)
Definition field (obj : gmap string JS.value) (k : string) : JS.value :=
  default JS.Undefined (obj !! k).

(** [xs.push(x)] *)
Definition push (xs : list string) (x : string) : list string := xs ++ [x].

(** [v.trim()] on a value of the body: only strings have the method, and
    [undefined] and [null] have no properties at all. *)
Definition call_trim (k : string) (v : JS.value) : io string :=
  match v with
  | JS.Str s => mret (JS.trim s)
  | JS.Undefined =>
      throw (TypeError "Cannot read properties of undefined (reading 'trim')")
  | JS.Null =>
      throw (TypeError "Cannot read properties of null (reading 'trim')")
  | _ => throw (TypeError (k +:+ ".trim is not a function"))
  end.

Definition internal_server_error : response :=
  mkResponse 500 (Failure "Internal Server Error").

(** The list the five [if (!x) missingFields.push('x')] lines build. *)
Definition missingFields (req_body : gmap string JS.value) : list string :=
  let missingFields := [] in
  let missingFields :=
    if negb (JS.truthy (field req_body "name")) then push missingFields "name" else missingFields in
  let missingFields :=
    if negb (JS.truthy (field req_body "email")) then push missingFields "email" else missingFields in
  let missingFields :=
    if negb (JS.truthy (field req_body "department")) then push missingFields "department" else missingFields in
  let missingFields :=
    if negb (JS.truthy (field req_body "address")) then push missingFields "address" else missingFields in
  let missingFields :=
    if negb (JS.truthy (field req_body "division")) then push missingFields "division" else missingFields in
  missingFields.

(** The [try] block of the registration route. *)
Definition register_attempt (req_body : gmap string JS.value) : io response :=
  let name := field req_body "name" in
  let email := field req_body "email" in
  let department := field req_body "department" in
  let address := field req_body "address" in
  let division := field req_body "division" in
  let missing := missingFields req_body in
  if (0 <? length missing)%nat then
    mret (mkResponse 400 (Failure ("Missing fields: " +:+ JS.join ", " missing)))
  else
    regNo ← generateRegistrationNumber;
    name' ← call_trim "name" name;
    email' ← call_trim "email" email;
    department' ← call_trim "department" department;
    address' ← call_trim "address" address;
    division' ← call_trim "division" division;
    dbRun (InsertStudent regNo name' email' department' address' division');;
    mret (mkResponse 201 (Registered regNo name email department address division)).

(** [app.post('/api/register', ...)] *)
Definition post_api_register (req_body : gmap string JS.value) : io response :=
  try_catch (register_attempt req_body)
    (λ err,
       console_error "Registration error:" err;;
       mret internal_server_error).

(** [app.get('/api/students', ...)]. The query is the parsed query string
    with every parameter given once, so that its values are strings. *)
Definition get_api_students (req_query : gmap string string) : io response :=
  try_catch
    (let department := req_query !! "department" in
     students ←
       match department with
       | Some d =>
           if JS.truthy (JS.Str d) then dbAll (SelectStudents (Some d))
           else dbAll (SelectStudents None)
       | None => dbAll (SelectStudents None)
       end;
     mret (mkResponse 200 (Students students)))
    (λ err,
       console_error "Fetch students error:" err;;
       mret internal_server_error).

(** The table CREATE TABLE IF NOT EXISTS makes on a fresh file. *)
Definition empty_table : table := mkTable [] 0.

Definition fresh (y : Z) : world := mkWorld empty_table y [] [] [].

(** Requests served one after the other. *)
Fixpoint serve_registrations (reqs : list (gmap string JS.value)) : io (list response) :=
  match reqs with
  | [] => mret []
  | req :: rest =>
      r ← post_api_register req;
      rs ← serve_registrations rest;
      mret (r :: rs)
  end.

(** [p] is an initial segment of [s] up to ASCII case. *)
Fixpoint ci_prefix (p s : string) : bool :=
  match p, s with
  | EmptyString, _ => true
  | String _ _, EmptyString => false
  | String c p', String d s' =>
      Ascii.eqb (Sqlite.lower c) (Sqlite.lower d) && ci_prefix p' s'
  end.

Definition wildcard (c : ascii) : bool := Ascii.eqb c "%" || Ascii.eqb c "_".

(** The characters [String(n)] is made of. *)
Definition numeral (c : ascii) : bool := is_digit c || Ascii.eqb c "-".

(** Up to 999 the sequence part has three characters, all digits, and
    [parseInt] reads the number back from it. *)
Definition three_digits (k : Z) : bool :=
  Nat.eqb (String.length (sequencePart k)) 3
  && string_forall is_digit (sequencePart k)
  && bool_decide (JS.parseInt10 (sequencePart k) = Some k).

(** Among three-digit sequence parts the order of the strings is the order
    of the numbers. *)
Definition below_in_order (k : Z) : bool :=
  forallb (λ i, String.leb (sequencePart i) (sequencePart k)) (seqZ 1 k).

(** A number that spells COL, in whatever case, spells it in capitals. *)
Definition tag_upper (reg : string) : Prop :=
  ci_prefix "COL" reg = true → String.prefix "COL" reg = true.

(** The row [dbGet] resolves with, if any, for the allocator's query. *)
Definition latest (y : Z) (t : table) : option Student.t :=
  head (take 1 (merge_sort reg_no_desc
    (filter (λ r, Sqlite.like (prefix y +:+ "%") (Student.reg_no r) = true) (rows t)))).

(** The fault, if any, the environment has planned for the next call. *)
Definition next_fault (w : world) : option error :=
  match faults w with
  | Some e :: _ => Some e
  | _ => None
  end.

(** The world after the statement [q] went to the driver and left the
    table [t]. *)
Definition after_call (q : sql) (t : table) (w : world) : world :=
  mkWorld t (year w) (tail (faults w)) (trace w ++ [q]) (console w).

(** The environment plans no fault at all. *)
Definition calm (w : world) : Prop := Forall (λ f, f = None) (faults w).

Definition latest_query (y : Z) : sql := SelectLatestRegNo (prefix y +:+ "%").

(** What the allocator returns on the table [t] in the year [y]. *)
Definition allocation (y : Z) (t : table) : string :=
  prefix y +:+ sequencePart (nextSequence (latest y t)).

Definition required_fields : list string :=
  ["name"; "email"; "department"; "address"; "division"].

(** What [console.error] leaves behind. *)
Definition logged (label : string) (e : error) (w : world) : world :=
  mkWorld (database w) (year w) (faults w) (trace w) (console w ++ [(label, e)]).

(** The world once the allocator's SELECT is through, and the INSERT the
    route then prepares. *)
Definition after_select (w : world) : world :=
  after_call (latest_query (year w)) (database w) w.

Definition insert_query (w : world) (n e d a v : string) : sql :=
  InsertStudent (allocation (year w) (database w))
    (JS.trim n) (JS.trim e) (JS.trim d) (JS.trim a) (JS.trim v).

Definition created (w : world) (n e d a v : string) : response :=
  mkResponse 201
    (Registered (allocation (year w) (database w))
       (JS.Str n) (JS.Str e) (JS.Str d) (JS.Str a) (JS.Str v)).

Definition not_a_string (v : JS.value) : Prop := ∀ s, v ≠ JS.Str s.

Ltac not_string k H :=
  left; split; [reflexivity|]; split; [reflexivity|]; exists k;
  split; [set_solver|]; split; [intros ?; rewrite H; discriminate|].

(** The registration numbers in the table. *)
Definition regs (t : table) : list string := Student.reg_no <$> rows t.

(** The table with one more row, as a successful INSERT leaves it. *)
Definition inserted (t : table) (reg n e d a v : string) : table :=
  let rowid := Z.max (sequence t) (max_id (rows t)) + 1 in
  mkTable (rows t ++ [Student.mk rowid reg n e d a v]) rowid.

(** A submission whose name is three spaces. *)
Definition blank_name : gmap string JS.value :=
  {[ "name" := JS.Str "   "; "email" := JS.Str "ada@example.org";
     "department" := JS.Str "Physics"; "address" := JS.Str "1 Main St";
     "division" := JS.Str "A" ]}.

(** A submission without [email] and [division]. *)
Definition two_absent : gmap string JS.value :=
  {[ "name" := JS.Str "Ada"; "department" := JS.Str "Physics";
     "address" := JS.Str "1 Main St" ]}.

(** A well-formed submission. *)
Definition ada : gmap string JS.value :=
  {[ "name" := JS.Str "Ada"; "email" := JS.Str "ada@example.org";
     "department" := JS.Str "Physics"; "address" := JS.Str " 1 Main St ";
     "division" := JS.Str "A" ]}.

Definition disk_io_error : error := SqliteError "SQLITE_IOERR" "disk I/O error".

(** The store read fails, the store write fails, or the [try] block throws
    for another reason; [err] is what is thrown and the world is the one
    the failure leaves. The store is only reached by a submission that
    passes the presence check. *)
Inductive internal_failure (req : gmap string JS.value) (w : world) : error → world → Prop :=
| read_fails (err : error) (w1 : world) :
    missingFields req = [] →
    driver (latest_query (year w)) w = (Throw err, w1) →
    internal_failure req w err w1
| write_fails (n e d a v : string) (err : error) (w2 : world) :
    missingFields req = [] →
    field req "name" = JS.Str n → field req "email" = JS.Str e →
    field req "department" = JS.Str d → field req "address" = JS.Str a →
    field req "division" = JS.Str v →
    next_fault w = None →
    driver (insert_query w n e d a v) (after_select w) = (Throw err, w2) →
    internal_failure req w err w2
| exception_raised (err : error) (w1 : world) :
    register_attempt req w = (Throw err, w1) →
    internal_failure req w err w1.

(** A table in which the year's numbers have run past 999. *)
Definition overflown : table :=
  mkTable [Student.mk 1 "COL2025999" "Ada" "ada@example.org" "Physics" "1 Main St" "A";
           Student.mk 2 "COL20251000" "Bob" "bob@example.org" "Physics" "2 Main St" "B"] 2.

(** Three students of two departments, in the order of their creation. *)
Definition three_students : table :=
  mkTable [Student.mk 1 "COL2025001" "Ada" "ada@example.org" "Physics" "1 Main St" "A";
           Student.mk 2 "COL2025002" "Bob" "bob@example.org" "Biology" "2 Main St" "B";
           Student.mk 3 "COL2025003" "Cy" "cy@example.org" "Physics" "3 Main St" "A"] 3.

(** The statement the listing route prepares for a query. *)
Definition listing_query (query : gmap string string) : sql :=
  match query !! "department" with
  | Some d => if JS.truthy (JS.Str d) then SelectStudents (Some d) else SelectStudents None
  | None => SelectStudents None
  end.

(** The rows that statement selects, before they are ordered. *)
Definition selected (query : gmap string string) (t : table) : list Student.t :=
  match listing_query query with
  | SelectStudents (Some d) => filter (λ r, Student.department r = d) (rows t)
  | _ => rows t
  end.

(** "starts with the prefix" *)
Definition starts_with (p s : string) : Prop := String.prefix p s = true.

(** "the last [n] characters" *)
Definition last_chars (n : nat) (s : string) : string :=
  substring (String.length s - n) n s.

Fixpoint zeros (n : nat) : string :=
  match n with
  | O => EmptyString
  | S n' => String "0" (zeros n')
  end.

(** "zero-padded to [width]": the decimal numeral with zeros in front of
    it until it has [width] characters. *)
Definition zero_padded (width : nat) (n : Z) : string :=
  zeros (width - String.length (JS.Number_toString n)) +:+ JS.Number_toString n.

(** The number a string of decimal digits denotes, [acc] being the number
    read so far. *)
Fixpoint decimal_value (s : string) (acc : Z) : Z :=
  match s with
  | EmptyString => acc
  | String c s' => decimal_value s' (10 * acc + (code c - 48))
  end.

Definition not_digit (c : ascii) : bool := negb (is_digit c).

(** A submission in which the five fields are non-empty strings. *)
Definition valid_submission (req : gmap string JS.value) : Prop :=
  ∀ k, k ∈ required_fields → ∃ s, field req k = JS.Str s ∧ s ≠ "".

(** The registration number of the year [y] with the sequence value [k]. *)
Definition numbered (y k : Z) : string := prefix y +:+ sequencePart k.

(** The numbers 1 to [n] of the year [y], in this order. *)
Definition issued (y n : Z) : list string := numbered y <$> seqZ 1 n.

(** The 201 answer to [req] carrying the number [reg]. *)
Definition accepted (reg : string) (req : gmap string JS.value) : response :=
  mkResponse 201
    (Registered reg (field req "name") (field req "email")
       (field req "department") (field req "address") (field req "division")).

(** The answers to [reqs] when they are given the sequence values from [k]
    on, one after the other. *)
Fixpoint accepted_from (y k : Z) (reqs : list (gmap string JS.value)) : list response :=
  match reqs with
  | [] => []
  | req :: rest => accepted (numbered y k) req :: accepted_from y (k + 1) rest
  end.

(** None of the numbers matches the pattern of the year [y]. *)
Definition unused_year (y : Z) (l : list string) : Prop :=
  Forall (λ reg, Sqlite.like (prefix y +:+ "%") reg = false) l.

(** A submission whose name is the number 3. *)
Definition numeric_name : gmap string JS.value :=
  {[ "name" := JS.Num 3; "email" := JS.Str "ada@example.org";
     "department" := JS.Str "Physics"; "address" := JS.Str "1 Main St";
     "division" := JS.Str "A" ]}.

(** The number a response assigns, if it is an acceptance. *)
Definition assigned (resp : response) : option string :=
  match body resp with
  | Registered reg _ _ _ _ _ => Some reg
  | _ => None
  end.

(** A fault plan that lets the first two store calls through and fails
    the third. *)
Definition third_call_fails : list (option error) :=
  [None; None; Some disk_io_error].

(** The ids grow strictly along the rows, which are in insertion order. *)
Definition older_first (rs : list Student.t) : Prop :=
  StronglySorted (λ a b, Student.id a < Student.id b) rs.

Definition starts_white (s : string) : bool :=
  match s with
  | String c _ => JS.is_white c
  | EmptyString => false
  end.

Definition ends_white (s : string) : bool := starts_white (String.rev s).

(** No white space at either end. *)
Definition trimmed (s : string) : Prop :=
  starts_white s = false ∧ ends_white s = false.

Definition trimmed_row (r : Student.t) : Prop :=
  trimmed (Student.name r) ∧ trimmed (Student.email r)
  ∧ trimmed (Student.department r) ∧ trimmed (Student.address r)
  ∧ trimmed (Student.division r).

(** COL, then the characters of a decimal numeral, then at least three
    digits. *)
Definition canonical (reg : string) : Prop :=
  ∃ y digits,
    reg = "COL" +:+ y +:+ digits
    ∧ string_forall numeral y = true
    ∧ string_forall is_digit digits = true
    ∧ (3 ≤ String.length digits)%nat.

(** From a fresh database, by registration requests, listing requests,
    and whatever the environment does in between: the clock moves and
    the faults to come change. *)
Inductive reachable : world → Prop :=
| reachable_fresh (y : Z) (plan : list (option error)) :
    reachable (mkWorld empty_table y plan [] [])
| reachable_register (req : gmap string JS.value) (w w' : world) (resp : response) :
    reachable w →
    post_api_register req w = (Return resp, w') →
    reachable w'
| reachable_listing (query : gmap string string) (w w' : world) (resp : response) :
    reachable w →
    get_api_students query w = (Return resp, w') →
    reachable w'
| reachable_environment (w : world) (y : Z) (plan : list (option error)) :
    reachable w →
    reachable (mkWorld (database w) y plan (trace w) (console w)).

(** A table that holds two numbers of 2024. *)
Definition last_year : table :=
  mkTable [Student.mk 1 "COL2024001" "Ada" "ada@example.org" "Physics" "1 Main St" "A";
           Student.mk 2 "COL2024002" "Bob" "bob@example.org" "Biology" "2 Main St" "B"] 2.

(** A year of four digits is written with four characters, from which
    [parseInt] reads it back. *)
Definition four_characters (y : Z) : bool :=
  Nat.eqb (String.length (JS.Number_toString y)) 4
  && bool_decide (JS.parseInt10 (JS.Number_toString y) = Some y).

(** * Properties *)

(** ** Strings *)

Lemma length_append (p q : string) :
  String.length (p +:+ q) = (String.length p + String.length q)%nat.
Proof. induction p as [|c p IH]; simpl; [reflexivity | now rewrite IH]. Qed.

Lemma string_drop_append (p q : string) :
  string_drop (String.length p) (p +:+ q) = q.
Proof. induction p as [|c p IH]; simpl; [now destruct q | exact IH]. Qed.

Lemma slice_last3_append (p q : string) :
  String.length q = 3%nat → JS.slice (-3) (p +:+ q) = q.
Proof.
  intros Hq. unfold JS.slice.
  change (-3 <? 0) with true. cbv iota.
  rewrite length_append, Hq.
  replace (Z.to_nat (Z.max (Z.of_nat (String.length p + 3) + -3) 0))
    with (String.length p) by lia.
  apply string_drop_append.
Qed.

Lemma ascii_compare_refl (c : ascii) : Ascii.compare c c = Eq.
Proof. unfold Ascii.compare. apply N.compare_refl. Qed.

Lemma compare_append (p a b : string) :
  String.compare (p +:+ a) (p +:+ b) = String.compare a b.
Proof.
  induction p as [|c p IH]; simpl; [reflexivity|].
  now rewrite ascii_compare_refl.
Qed.

Lemma leb_append (p a b : string) :
  String.leb (p +:+ a) (p +:+ b) = String.leb a b.
Proof. unfold String.leb. now rewrite compare_append. Qed.

Lemma prefix_append (p r : string) : String.prefix p (p +:+ r) = true.
Proof.
  induction p as [|c p IH]; simpl; [now destruct r|].
  destruct (ascii_dec c c); [exact IH | congruence].
Qed.

Lemma prefix_inv (p s : string) :
  String.prefix p s = true → ∃ r, s = p +:+ r.
Proof.
  revert s. induction p as [|c p IH]; intros s H.
  - exists s. reflexivity.
  - destruct s as [|d s]; simpl in H; [discriminate|].
    destruct (ascii_dec c d) as [->|]; [|discriminate].
    destruct (IH _ H) as [r ->]. exists r. reflexivity.
Qed.

(** ** The LIKE pattern of the allocator *)

Lemma like_percent (s : string) : Sqlite.like "%" s = true.
Proof.
  simpl. induction s as [|c s IH]; [reflexivity|].
  simpl. exact IH.
Qed.

Lemma like_literal_prefix (p s : string) :
  string_forall (λ c, negb (wildcard c)) p = true →
  Sqlite.like (p +:+ "%") s = ci_prefix p s.
Proof.
  revert s. induction p as [|c p IH]; intros s Hp.
  - apply like_percent.
  - simpl in Hp. apply andb_true_iff in Hp as [Hc Hp].
    unfold wildcard in Hc. apply negb_true_iff, orb_false_iff in Hc as [H1 H2].
    change (Sqlite.like (String c p +:+ "%") s) with
      (if Ascii.eqb c "%" then
         (fix any (t : string) : bool :=
            Sqlite.like (p +:+ "%") t
            || match t with EmptyString => false | String _ t' => any t' end) s
       else match s with
            | EmptyString => false
            | String d s' =>
                (Ascii.eqb c "_" || Ascii.eqb (Sqlite.lower c) (Sqlite.lower d))
                && Sqlite.like (p +:+ "%") s'
            end).
    rewrite H1, H2.
    destruct s as [|d s]; [reflexivity|].
    cbn [ci_prefix orb]. now rewrite IH.
Qed.

Lemma numeral_not_wildcard (c : ascii) :
  numeral c = true → negb (wildcard c) = true.
Proof.
  destruct c as [[] [] [] [] [] [] [] []]; vm_compute; congruence.
Qed.

Lemma numeral_lower (c : ascii) : numeral c = true → Sqlite.lower c = c.
Proof.
  destruct c as [[] [] [] [] [] [] [] []]; vm_compute; congruence.
Qed.

Lemma lower_numeral (d : ascii) :
  numeral (Sqlite.lower d) = true → Sqlite.lower d = d.
Proof.
  destruct d as [[] [] [] [] [] [] [] []]; vm_compute; congruence.
Qed.

Lemma ci_prefix_numeral (p s : string) :
  string_forall numeral p = true →
  ci_prefix p s = String.prefix p s.
Proof.
  revert s. induction p as [|c p IH]; intros s Hp; [now destruct s|].
  simpl in Hp. apply andb_true_iff in Hp as [Hc Hp].
  destruct s as [|d s]; [reflexivity|].
  simpl. rewrite (numeral_lower c Hc), IH by assumption.
  destruct (ascii_dec c d) as [->|Hne].
  - now rewrite (numeral_lower d Hc), Ascii.eqb_refl.
  - destruct (Ascii.eqb c (Sqlite.lower d)) eqn:E; [|reflexivity].
    apply Ascii.eqb_eq in E. exfalso. apply Hne.
    rewrite E. apply lower_numeral. now rewrite <- E.
Qed.

(** ** Decimal numerals *)

Lemma numeral_of_digit (c : ascii) : is_digit c = true → numeral c = true.
Proof. unfold numeral. now intros ->. Qed.

Lemma string_of_uint_digits (u : Decimal.uint) :
  string_forall is_digit (NilEmpty.string_of_uint u) = true.
Proof. induction u; simpl; auto. Qed.

Lemma string_of_uint_length (u : Decimal.uint) :
  String.length (NilEmpty.string_of_uint u) = Decimal.nb_digits u.
Proof. induction u; simpl; auto. Qed.

Lemma string_forall_impl (p q : ascii → bool) (s : string) :
  (∀ c, p c = true → q c = true) →
  string_forall p s = true → string_forall q s = true.
Proof.
  intros Hpq. induction s as [|c s IH]; simpl; [reflexivity|].
  intros [Hc Hs]%andb_true_iff. rewrite (Hpq c Hc). now apply IH.
Qed.

Lemma string_forall_append (p : ascii → bool) (s t : string) :
  string_forall p (s +:+ t) = string_forall p s && string_forall p t.
Proof. induction s as [|c s IH]; simpl; [reflexivity|]. now rewrite IH, andb_assoc. Qed.

Lemma Number_toString_positive (p : positive) :
  JS.Number_toString (Z.pos p) = NilEmpty.string_of_uint (Pos.to_uint p).
Proof.
  unfold JS.Number_toString. simpl.
  pose proof (Unsigned.to_uint_nonnil p) as Hnil.
  now destruct (Pos.to_uint p).
Qed.

Lemma Number_toString_numeral (n : Z) :
  string_forall numeral (JS.Number_toString n) = true.
Proof.
  assert (Hu : ∀ u, string_forall numeral (NilZero.string_of_uint u) = true).
  { intros u. destruct u; try reflexivity;
      apply (string_forall_impl is_digit); auto using numeral_of_digit;
      apply (string_of_uint_digits (_ u)). }
  unfold JS.Number_toString. destruct n; simpl; auto.
Qed.

Lemma of_lu_bound (d : Decimal.uint) :
  (Unsigned.of_lu d < 10 ^ N.of_nat (Decimal.nb_digits d))%N.
Proof.
  induction d; cbn [Unsigned.of_lu Decimal.nb_digits];
    rewrite ?Nat2N.inj_succ, ?N.pow_succ_r', ?N.pow_0_r; lia.
Qed.

(** A number of at least four digits is written with at least four
    characters, all of them digits. *)
Lemma Number_toString_large (n : Z) :
  1000 ≤ n →
  (4 ≤ String.length (JS.Number_toString n))%nat
  ∧ string_forall is_digit (JS.Number_toString n) = true.
Proof.
  intros Hn. destruct n as [|p|p]; try lia.
  rewrite Number_toString_positive. split; [|apply string_of_uint_digits].
  rewrite string_of_uint_length.
  pose proof (Unsigned.of_to p) as Hp.
  rewrite Unsigned.of_uint_alt in Hp.
  pose proof (of_lu_bound (Decimal.rev (Pos.to_uint p))) as Hb.
  rewrite Hp, DecimalFacts.nb_digits_rev in Hb.
  destruct (le_lt_dec 4 (Decimal.nb_digits (Pos.to_uint p))) as [|Hlt]; [assumption|].
  exfalso.
  assert (10 ^ N.of_nat (Decimal.nb_digits (Pos.to_uint p)) ≤ 10 ^ 3)%N
    by (apply N.pow_le_mono_r; lia).
  change (10 ^ 3)%N with 1000%N in *. lia.
Qed.

(** ** The sequence part *)

Lemma forallb_seqZ (P : Z → bool) (lo len : Z) :
  forallb P (seqZ lo len) = true → ∀ k, lo ≤ k < lo + len → P k = true.
Proof.
  intros H k Hk. rewrite forallb_forall in H. apply H.
  apply list_elem_of_In, elem_of_seqZ. lia.
Qed.

Lemma three_digits_upto_999 : forallb three_digits (seqZ 0 1000) = true.
Proof. vm_compute. reflexivity. Qed.

Lemma sequencePart_small (k : Z) :
  0 ≤ k ≤ 999 →
  String.length (sequencePart k) = 3%nat
  ∧ string_forall is_digit (sequencePart k) = true
  ∧ JS.parseInt10 (sequencePart k) = Some k.
Proof.
  intros Hk.
  pose proof (forallb_seqZ _ _ _ three_digits_upto_999 k ltac:(lia)) as H.
  unfold three_digits in H.
  apply andb_true_iff in H as [[H1 H2]%andb_true_iff H3].
  apply Nat.eqb_eq in H1. apply bool_decide_eq_true in H3. auto.
Qed.

Lemma sequencePart_large (n : Z) :
  1000 ≤ n → sequencePart n = JS.Number_toString n.
Proof.
  intros Hn. destruct (Number_toString_large n Hn) as [Hlen _].
  unfold sequencePart, JS.padStart.
  destruct (Nat.leb_spec 3 (String.length (JS.Number_toString n))); [reflexivity | lia].
Qed.

Lemma order_upto_999 : forallb below_in_order (seqZ 1 999) = true.
Proof. vm_compute. reflexivity. Qed.

Lemma sequencePart_leb (i k : Z) :
  1 ≤ i ≤ k → k ≤ 999 →
  String.leb (sequencePart i) (sequencePart k) = true.
Proof.
  intros Hi Hk.
  pose proof (forallb_seqZ _ _ _ order_upto_999 k ltac:(lia)) as H.
  exact (forallb_seqZ _ _ _ H i ltac:(lia)).
Qed.

(** The four-digit part of 1000 sorts below the part of 999. *)
Lemma sequencePart_1000_leb :
  String.leb (sequencePart 1000) (sequencePart 999) = true.
Proof. reflexivity. Qed.

Lemma sequencePart_inj (i j : Z) :
  0 ≤ i ≤ 1000 → 0 ≤ j ≤ 1000 → sequencePart i = sequencePart j → i = j.
Proof.
  intros Hi Hj E.
  assert (H4 : String.length (sequencePart 1000) = 4%nat) by reflexivity.
  destruct (Z.eq_dec i 1000) as [->|], (Z.eq_dec j 1000) as [->|]; try reflexivity.
  - destruct (sequencePart_small j ltac:(lia)) as [Hl _]. rewrite <- E, H4 in Hl. lia.
  - destruct (sequencePart_small i ltac:(lia)) as [Hl _]. rewrite E, H4 in Hl. lia.
  - destruct (sequencePart_small i ltac:(lia)) as (_ & _ & Pi).
    destruct (sequencePart_small j ltac:(lia)) as (_ & _ & Pj).
    rewrite E in Pi. congruence.
Qed.

(** ** The year's pattern on well-formed numbers *)

Lemma prefix_ci_prefix (p s : string) :
  String.prefix p s = true → ci_prefix p s = true.
Proof.
  intros [r ->]%prefix_inv. induction p as [|c p IH]; [reflexivity|].
  simpl. now rewrite Ascii.eqb_refl.
Qed.

Lemma ci_prefix_append (a b s : string) :
  ci_prefix (a +:+ b) s = ci_prefix a s && ci_prefix b (string_drop (String.length a) s).
Proof.
  revert s. induction a as [|c a IH]; intros s; [reflexivity|].
  destruct s as [|d s]; [reflexivity|].
  simpl. now rewrite IH, andb_assoc.
Qed.

Lemma String_prefix_append (a b s : string) :
  String.prefix (a +:+ b) s
  = String.prefix a s && String.prefix b (string_drop (String.length a) s).
Proof.
  revert s. induction a as [|c a IH]; intros s; [now destruct s, b|].
  destruct s as [|d s]; [reflexivity|].
  simpl. destruct (ascii_dec c d); [apply IH | reflexivity].
Qed.

Lemma prefix_no_wildcard (y : Z) :
  string_forall (λ c, negb (wildcard c)) (prefix y) = true.
Proof.
  unfold prefix. rewrite string_forall_append. apply andb_true_iff. split; [reflexivity|].
  apply (string_forall_impl numeral); [apply numeral_not_wildcard|].
  apply Number_toString_numeral.
Qed.

(** On such a number the allocator's LIKE is the test "starts with the
    prefix". *)
Lemma like_year_prefix (y : Z) (reg : string) :
  tag_upper reg →
  Sqlite.like (prefix y +:+ "%") reg = String.prefix (prefix y) reg.
Proof.
  intros Htag. rewrite like_literal_prefix by apply prefix_no_wildcard.
  unfold prefix. rewrite ci_prefix_append, String_prefix_append.
  rewrite (ci_prefix_numeral (JS.Number_toString y)) by apply Number_toString_numeral.
  f_equal. destruct (ci_prefix "COL" reg) eqn:E.
  - symmetry. now apply Htag.
  - destruct (String.prefix "COL" reg) eqn:E'; [|reflexivity].
    apply prefix_ci_prefix in E'. congruence.
Qed.

Lemma like_year_append (y : Z) (r : string) :
  Sqlite.like (prefix y +:+ "%") (prefix y +:+ r) = true.
Proof.
  rewrite like_literal_prefix by apply prefix_no_wildcard.
  apply prefix_ci_prefix, prefix_append.
Qed.

(** ** ORDER BY reg_no DESC LIMIT 1 *)

#[global] Instance reg_no_desc_trans : Transitive reg_no_desc.
Proof. intros a b c Hab Hbc. unfold reg_no_desc in *. by etrans. Qed.

#[global] Instance reg_no_desc_total : Total reg_no_desc.
Proof. intros a b. unfold reg_no_desc. destruct (total String.le (Student.reg_no a) (Student.reg_no b)); auto. Qed.

#[global] Instance id_desc_trans : Transitive id_desc.
Proof. intros a b c. unfold id_desc. lia. Qed.

#[global] Instance id_desc_total : Total id_desc.
Proof. intros a b. unfold id_desc. lia. Qed.

Lemma latest_none (y : Z) (t : table) :
  (∀ r, r ∈ rows t → Sqlite.like (prefix y +:+ "%") (Student.reg_no r) = false) →
  latest y t = None.
Proof.
  intros Hno. unfold latest.
  replace (filter _ (rows t)) with (@nil Student.t); [reflexivity|].
  symmetry. induction (rows t) as [|r rs IH]; [reflexivity|].
  rewrite filter_cons, decide_False.
  - apply IH. intros r' Hr'. apply Hno. now right.
  - rewrite (Hno r) by now left. discriminate.
Qed.

Lemma latest_max (y : Z) (t : table) (m : Student.t) :
  m ∈ rows t →
  Sqlite.like (prefix y +:+ "%") (Student.reg_no m) = true →
  (∀ r, r ∈ rows t → Sqlite.like (prefix y +:+ "%") (Student.reg_no r) = true →
        String.le (Student.reg_no r) (Student.reg_no m)) →
  ∃ m', latest y t = Some m' ∧ Student.reg_no m' = Student.reg_no m.
Proof.
  intros Hm Hlike Hmax. unfold latest.
  set (l := filter _ (rows t)).
  pose proof (StronglySorted_merge_sort reg_no_desc l) as Hsorted.
  pose proof (merge_sort_Permutation reg_no_desc l) as Hperm.
  assert (Hin : m ∈ merge_sort reg_no_desc l).
  { rewrite Hperm. apply list_elem_of_filter. auto. }
  destruct (merge_sort reg_no_desc l) as [|x s]; [by apply elem_of_nil in Hin|].
  exists x. split; [reflexivity|].
  assert (Hx : x ∈ l) by (rewrite <- Hperm; left).
  apply list_elem_of_filter in Hx as [Hxl Hxr].
  apply (anti_symm String.le).
  - now apply Hmax.
  - apply elem_of_cons in Hin as [->|Hin]; [reflexivity|].
    apply StronglySorted_inv in Hsorted as [_ Hall].
    rewrite Forall_forall in Hall. exact (Hall m Hin).
Qed.

(** ** One call into the driver *)

Lemma driver_ok (q : sql) (w : world) :
  next_fault w = None →
  driver q w = ((exec q (database w)).1, after_call q (exec q (database w)).2 w).
Proof.
  unfold next_fault, driver, after_call. intros H.
  destruct (faults w) as [|[e|] plan]; try discriminate;
    now destruct (exec q (database w)).
Qed.

Lemma driver_fault (q : sql) (w : world) (e : error) :
  next_fault w = Some e →
  driver q w = (Throw e, after_call q (database w) w).
Proof.
  unfold next_fault, driver, after_call. intros H.
  destruct (faults w) as [|[e'|] plan]; try discriminate.
  now injection H as ->.
Qed.

Lemma calm_next_fault (w : world) : calm w → next_fault w = None.
Proof.
  unfold calm, next_fault. intros H.
  destruct (faults w) as [|[e|] plan]; try reflexivity.
  apply Forall_cons in H as [H _]. discriminate.
Qed.

Lemma calm_after_call (q : sql) (t : table) (w : world) :
  calm w → calm (after_call q t w).
Proof.
  unfold calm, after_call. simpl. intros H.
  destruct (faults w); [assumption|]. now apply Forall_cons in H as [_ H].
Qed.

(** ** The allocator's result *)

Lemma generate_ok (w : world) :
  next_fault w = None →
  generateRegistrationNumber w
  = (Return (allocation (year w) (database w)),
     after_call (latest_query (year w)) (database w) w).
Proof.
  intros H. unfold generateRegistrationNumber, getFullYear, dbGet.
  unfold mbind, io_bind, mret, io_ret.
  rewrite (driver_ok _ _ H). reflexivity.
Qed.

Lemma generate_fault (w : world) (e : error) :
  next_fault w = Some e →
  generateRegistrationNumber w
  = (Throw e, after_call (latest_query (year w)) (database w) w).
Proof.
  intros H. unfold generateRegistrationNumber, getFullYear, dbGet.
  unfold mbind, io_bind, mret, io_ret.
  rewrite (driver_fault _ _ _ H). reflexivity.
Qed.

(** ** The registration route, case by case *)

Lemma missingFields_filter (req : gmap string JS.value) :
  missingFields req
  = filter (λ k, JS.truthy (field req k) = false) required_fields.
Proof.
  unfold missingFields, required_fields, push.
  destruct (JS.truthy (field req "name")) eqn:E1,
           (JS.truthy (field req "email")) eqn:E2,
           (JS.truthy (field req "department")) eqn:E3,
           (JS.truthy (field req "address")) eqn:E4,
           (JS.truthy (field req "division")) eqn:E5;
    simpl; rewrite ?filter_cons, ?filter_nil, ?E1, ?E2, ?E3, ?E4, ?E5; reflexivity.
Qed.

Lemma missingFields_nil (req : gmap string JS.value) (k : string) :
  missingFields req = [] → k ∈ required_fields → JS.truthy (field req k) = true.
Proof.
  rewrite missingFields_filter. intros Hnil Hk.
  destruct (JS.truthy (field req k)) eqn:E; [reflexivity|].
  assert (k ∈ filter (λ k, JS.truthy (field req k) = false) required_fields)
    by (apply list_elem_of_filter; auto).
  rewrite Hnil in H. by apply elem_of_nil in H.
Qed.

Lemma post_api_register_catch (req : gmap string JS.value) (w : world) :
  post_api_register req w =
  match register_attempt req w with
  | (Return r, w') => (Return r, w')
  | (Throw e, w') => (Return internal_server_error, logged "Registration error:" e w')
  end.
Proof.
  unfold post_api_register, try_catch.
  destruct (register_attempt req w) as [[r|e] w']; reflexivity.
Qed.

Lemma truthy_string (s : string) : JS.truthy (JS.Str s) = true → s ≠ "".
Proof. simpl. intros H ->. discriminate. Qed.

Lemma register_attempt_cases (req : gmap string JS.value) (w : world) :
  (missingFields req ≠ []
   ∧ register_attempt req w
     = (Return (mkResponse 400
          (Failure ("Missing fields: " +:+ JS.join ", " (missingFields req)))), w))
  ∨ (missingFields req = []
     ∧ ∃ err, next_fault w = Some err
       ∧ register_attempt req w = (Throw err, after_select w))
  ∨ (missingFields req = [] ∧ next_fault w = None
     ∧ ∃ k, k ∈ required_fields ∧ not_a_string (field req k)
       ∧ register_attempt req w
         = (Throw (TypeError (k +:+ ".trim is not a function")), after_select w))
  ∨ (missingFields req = [] ∧ next_fault w = None
     ∧ ∃ n e d a v,
         (field req "name" = JS.Str n ∧ field req "email" = JS.Str e
          ∧ field req "department" = JS.Str d ∧ field req "address" = JS.Str a
          ∧ field req "division" = JS.Str v)
         ∧ (n ≠ "" ∧ e ≠ "" ∧ d ≠ "" ∧ a ≠ "" ∧ v ≠ "")
         ∧ register_attempt req w
           = match driver (insert_query w n e d a v) (after_select w) with
             | (Return _, w') => (Return (created w n e d a v), w')
             | (Throw err, w') => (Throw err, w')
             end).
Proof.
  unfold register_attempt.
  destruct (missingFields req) as [|k0 ks] eqn:Hmiss; [|left; split; [discriminate | reflexivity]].
  right.
  pose proof (missingFields_nil req "name" Hmiss ltac:(repeat constructor)) as T1.
  pose proof (missingFields_nil req "email" Hmiss ltac:(repeat constructor)) as T2.
  pose proof (missingFields_nil req "department" Hmiss ltac:(repeat constructor)) as T3.
  pose proof (missingFields_nil req "address" Hmiss ltac:(repeat constructor)) as T4.
  pose proof (missingFields_nil req "division" Hmiss ltac:(repeat constructor)) as T5.
  cbn [length Nat.ltb Nat.leb]. unfold mbind, io_bind.
  destruct (next_fault w) as [err|] eqn:Hfault.
  { left. split; [reflexivity|]. exists err. split; [reflexivity|].
    now rewrite (generate_fault w err Hfault). }
  right. rewrite (generate_ok w Hfault).
  destruct (field req "name") as [| |?|?|n|?|?] eqn:F1;
    try discriminate T1; try (not_string "name" F1; reflexivity).
  destruct (field req "email") as [| |?|?|e|?|?] eqn:F2;
    try discriminate T2; try (not_string "email" F2; reflexivity).
  destruct (field req "department") as [| |?|?|d|?|?] eqn:F3;
    try discriminate T3; try (not_string "department" F3; reflexivity).
  destruct (field req "address") as [| |?|?|a|?|?] eqn:F4;
    try discriminate T4; try (not_string "address" F4; reflexivity).
  destruct (field req "division") as [| |?|?|v|?|?] eqn:F5;
    try discriminate T5; try (not_string "division" F5; reflexivity).
  right. split; [reflexivity|]. split; [reflexivity|].
  exists n, e, d, a, v. split; [repeat split|].
  split; [repeat split; apply truthy_string; assumption|].
  unfold call_trim, mret, io_ret, dbRun, mbind, io_bind.
  fold (after_select w). fold (insert_query w n e d a v). fold (created w n e d a v).
  destruct (driver (insert_query w n e d a v) (after_select w)) as [[?|?] ?];
    reflexivity.
Qed.

(** ** The INSERT *)

Lemma existsb_reg_no (reg : string) (rs : list Student.t) :
  existsb (λ r, String.eqb (Student.reg_no r) reg) rs = true
  ↔ reg ∈ (Student.reg_no <$> rs).
Proof.
  rewrite existsb_exists, list_elem_of_fmap. split.
  - intros (r & Hr & E). apply String.eqb_eq in E. exists r.
    split; [auto | now apply list_elem_of_In].
  - intros (r & -> & Hr). exists r.
    split; [now apply list_elem_of_In | apply String.eqb_refl].
Qed.

Lemma exec_insert_duplicate (t : table) (reg n e d a v : string) :
  reg ∈ regs t → exec (InsertStudent reg n e d a v) t = (Throw unique_violation, t).
Proof.
  intros H. apply existsb_reg_no in H. simpl. now rewrite H.
Qed.

Lemma exec_insert_new (t : table) (reg n e d a v : string) :
  reg ∉ regs t → exec (InsertStudent reg n e d a v) t = (Return [], inserted t reg n e d a v).
Proof.
  intros H. simpl.
  destruct (existsb _ (rows t)) eqn:E; [|reflexivity].
  now apply existsb_reg_no in E.
Qed.

Lemma driver_insert_cases (w : world) (reg n e d a v : string) :
  let q := InsertStudent reg n e d a v in
  (∃ err, next_fault w = Some err
     ∧ driver q w = (Throw err, after_call q (database w) w))
  ∨ (next_fault w = None ∧ reg ∈ regs (database w)
     ∧ driver q w = (Throw unique_violation, after_call q (database w) w))
  ∨ (next_fault w = None ∧ (reg ∉ regs (database w))
     ∧ driver q w = (Return [], after_call q (inserted (database w) reg n e d a v) w)).
Proof.
  intros q. destruct (next_fault w) as [err|] eqn:Hf.
  - left. exists err. split; [reflexivity|]. now apply driver_fault.
  - right. rewrite (driver_ok q w Hf).
    destruct (decide (reg ∈ regs (database w))) as [Hin|Hout].
    + left. unfold q. rewrite (exec_insert_duplicate _ _ n e d a v Hin). auto.
    + right. unfold q. rewrite (exec_insert_new _ _ n e d a v Hout). auto.
Qed.

(** Whatever happens, a failed INSERT leaves the table as it was. *)
Lemma driver_insert_throw (w w' : world) (reg n e d a v : string) (err : error) :
  driver (InsertStudent reg n e d a v) w = (Throw err, w') →
  w' = after_call (InsertStudent reg n e d a v) (database w) w.
Proof.
  intros H.
  destruct (driver_insert_cases w reg n e d a v) as [(x & _ & E)|[(_ & _ & E)|(_ & _ & E)]];
    rewrite E in H; congruence.
Qed.

Lemma driver_select_throw (w w' : world) (y : Z) (err : error) :
  driver (latest_query y) w = (Throw err, w') →
  next_fault w = Some err ∧ w' = after_call (latest_query y) (database w) w.
Proof.
  intros H. destruct (next_fault w) as [x|] eqn:Hf.
  - rewrite (driver_fault _ _ _ Hf) in H. split; congruence.
  - rewrite (driver_ok _ _ Hf) in H. discriminate.
Qed.

(** ** Validation (C5, C6) *)

Lemma filter_ext_in {A} (P Q : A → Prop) `{!∀ x, Decision (P x)} `{!∀ x, Decision (Q x)}
    (l : list A) :
  (∀ x, x ∈ l → P x ↔ Q x) → filter P l = filter Q l.
Proof.
  induction l as [|x l IH]; intros Hext; [reflexivity|].
  rewrite !filter_cons. rewrite IH by (intros y Hy; apply Hext; now right).
  pose proof (Hext x ltac:(left)) as Hx.
  destruct (decide (P x)), (decide (Q x)); tauto.
Qed.

Lemma absent_is_missing (req : gmap string JS.value) (k : string) :
  req !! k = None → JS.truthy (field req k) = false.
Proof. unfold field. now intros ->. Qed.

(** C5. A registration request in which at least one of the five
    required fields is absent is answered 400 with the message
    "Missing fields: " followed by the names, in the order name, email,
    department, address, division, of exactly the required fields that
    are missing (every absent field is among them, and when the fields
    that are present are filled in they are the absent fields and
    nothing else); the world, and with it the table, is left as it was
    and no statement reaches the store. *)
Theorem missing_fields_rejected (req : gmap string JS.value) (w : world) :
  (∃ k, k ∈ required_fields ∧ req !! k = None) →
  let listed := filter (λ k, JS.truthy (field req k) = false) required_fields in
  post_api_register req w
  = (Return (mkResponse 400 (Failure ("Missing fields: " +:+ JS.join ", " listed))), w)
  ∧ (∀ k, k ∈ required_fields → req !! k = None → k ∈ listed)
  ∧ ((∀ k, k ∈ required_fields → req !! k ≠ None → JS.truthy (field req k) = true) →
     listed = filter (λ k, req !! k = None) required_fields).
Proof.
  intros (k0 & Hk0 & Habs) listed.
  assert (Hall : ∀ k, k ∈ required_fields → req !! k = None → k ∈ listed).
  { intros k Hk Hnone. apply list_elem_of_filter. auto using absent_is_missing. }
  split; [|split; [exact Hall|]].
  - rewrite post_api_register_catch.
    destruct (register_attempt_cases req w) as [[_ ->]|Hnil].
    + now rewrite missingFields_filter.
    + assert (Hmiss : missingFields req = []) by (destruct Hnil as [[? _]|[[? _]|[? _]]]; auto).
      rewrite missingFields_filter in Hmiss. fold listed in Hmiss.
      specialize (Hall k0 Hk0 Habs). rewrite Hmiss in Hall. by apply elem_of_nil in Hall.
  - intros Hfilled. apply filter_ext_in. intros k Hk. split.
    + intros Hfalse. destruct (req !! k) eqn:E; [|reflexivity].
      rewrite (Hfilled k Hk) in Hfalse; [discriminate | now rewrite E].
    + apply absent_is_missing.
Qed.

Lemma missing_fields_rejected_witness :
  post_api_register two_absent (fresh 2025)
  = (Return (mkResponse 400 (Failure "Missing fields: email, division")), fresh 2025).
Proof.
  assert (H : ∃ k, k ∈ required_fields ∧ two_absent !! k = None).
  { exists "email". split; [set_solver | reflexivity]. }
  destruct (missing_fields_rejected two_absent (fresh 2025) H) as [E _].
  exact E.
Defined.

(** A [try] block that throws has sent the SELECT once and the INSERT at
    most once, and has left the table as it was. *)
Lemma register_attempt_throw (req : gmap string JS.value) (w w1 : world) (err : error) :
  register_attempt req w = (Throw err, w1) →
  missingFields req = []
  ∧ database w1 = database w
  ∧ (trace w1 = trace w ++ [latest_query (year w)]
     ∨ ∃ n e d a v,
         trace w1 = trace w ++ [latest_query (year w); insert_query w n e d a v]).
Proof.
  intros H.
  destruct (register_attempt_cases req w)
    as [[_ E]|[(Hm & x & _ & E)|[(Hm & _ & k & _ & _ & E)|(Hm & _ & n & e & d & a & v & _ & _ & E)]]];
    rewrite E in H.
  - discriminate.
  - injection H as <- <-. split; [exact Hm|]. split; [reflexivity|]. now left.
  - injection H as <- <-. split; [exact Hm|]. split; [reflexivity|]. now left.
  - split; [exact Hm|].
    destruct (driver (insert_query w n e d a v) (after_select w)) as [[?|x] w2] eqn:D;
      [discriminate|].
    injection H as <- <-.
    apply driver_insert_throw in D. subst w2. split; [reflexivity|].
    right. exists n, e, d, a, v. simpl. now rewrite <- app_assoc.
Qed.

(** The route either rejects the submission, or fails inside, or stores
    one row made of the trimmed fields. *)
Lemma post_api_register_cases (req : gmap string JS.value) (w : world) :
  (missingFields req ≠ []
   ∧ post_api_register req w
     = (Return (mkResponse 400
          (Failure ("Missing fields: " +:+ JS.join ", " (missingFields req)))), w))
  ∨ (missingFields req = []
     ∧ ∃ err w1, register_attempt req w = (Throw err, w1)
       ∧ post_api_register req w
         = (Return internal_server_error, logged "Registration error:" err w1))
  ∨ (missingFields req = [] ∧ next_fault w = None
     ∧ next_fault (after_select w) = None
     ∧ (allocation (year w) (database w) ∉ regs (database w))
     ∧ ∃ n e d a v,
         (field req "name" = JS.Str n ∧ field req "email" = JS.Str e
          ∧ field req "department" = JS.Str d ∧ field req "address" = JS.Str a
          ∧ field req "division" = JS.Str v)
         ∧ (n ≠ "" ∧ e ≠ "" ∧ d ≠ "" ∧ a ≠ "" ∧ v ≠ "")
         ∧ post_api_register req w
           = (Return (created w n e d a v),
              after_call (insert_query w n e d a v)
                (inserted (database w) (allocation (year w) (database w))
                   (JS.trim n) (JS.trim e) (JS.trim d) (JS.trim a) (JS.trim v))
                (after_select w))).
Proof.
  rewrite post_api_register_catch.
  destruct (register_attempt_cases req w)
    as [[Hm E]|[(Hm & x & _ & E)|[(Hm & _ & k & _ & _ & E)|(Hm & Hf & n & e & d & a & v & HF & HN & E)]]].
  - left. rewrite E. auto.
  - right. left. rewrite E. eauto.
  - right. left. rewrite E. eauto.
  - right. rewrite E.
    destruct (driver_insert_cases (after_select w) (allocation (year w) (database w))
                (JS.trim n) (JS.trim e) (JS.trim d) (JS.trim a) (JS.trim v))
      as [(x & _ & D)|[(_ & _ & D)|(Hf2 & Hnew & D)]];
      fold (insert_query w n e d a v) in D; rewrite D.
    + left. eauto.
    + left. eauto.
    + right. repeat (split; [assumption|]).
      exists n, e, d, a, v. auto.
Qed.

(** The route always answers. *)
Lemma post_api_register_returns (req : gmap string JS.value) (w : world) :
  ∃ resp w', post_api_register req w = (Return resp, w').
Proof.
  destruct (post_api_register_cases req w)
    as [[_ E]|[(_ & ? & ? & _ & E)|(_ & _ & _ & _ & ? & ? & ? & ? & ? & _ & _ & E)]];
    rewrite E; eauto.
Qed.

(** C6, as the code has it. The claim fails for a value made of white
    space only: it passes the presence check, which comes before the
    trimming, and is stored as the empty string. What holds: a request
    either leaves the rows as they were or appends exactly one row, and
    each of the five attributes of that row is the submitted string with
    the white space at both ends removed, the submitted string being
    non-empty; a submission in which one of the five fields is absent or
    the empty string is answered 400 and nothing is stored. *)
Theorem stored_fields_are_trimmed_submissions (req : gmap string JS.value) (w : world) :
  ∃ resp w', post_api_register req w = (Return resp, w')
  ∧ (rows (database w') = rows (database w)
     ∨ ∃ r n e d a v,
         rows (database w') = rows (database w) ++ [r]
         ∧ (field req "name" = JS.Str n ∧ n ≠ "" ∧ Student.name r = JS.trim n)
         ∧ (field req "email" = JS.Str e ∧ e ≠ "" ∧ Student.email r = JS.trim e)
         ∧ (field req "department" = JS.Str d ∧ d ≠ "" ∧ Student.department r = JS.trim d)
         ∧ (field req "address" = JS.Str a ∧ a ≠ "" ∧ Student.address r = JS.trim a)
         ∧ (field req "division" = JS.Str v ∧ v ≠ "" ∧ Student.division r = JS.trim v))
  ∧ ((∃ k, k ∈ required_fields ∧ (req !! k = None ∨ req !! k = Some (JS.Str ""))) →
     status resp = 400 ∧ w' = w).
Proof.
  destruct (post_api_register_cases req w)
    as [[Hm E]|[(Hm & err & w1 & T & E)|(Hm & _ & _ & _ & n & e & d & a & v & HF & HN & E)]];
    rewrite E; eexists _, _; (split; [reflexivity|]).
  - split; [now left | auto].
  - apply register_attempt_throw in T as (_ & T & _). split.
    + left. simpl. now rewrite T.
    + intros (k & Hk & Hblank). exfalso.
      pose proof (missingFields_nil req k Hm Hk) as Ht. unfold field in Ht.
      destruct Hblank as [Hb|Hb]; rewrite Hb in Ht; discriminate.
  - destruct HF as (F1 & F2 & F3 & F4 & F5). destruct HN as (N1 & N2 & N3 & N4 & N5).
    split.
    + right. eexists _, n, e, d, a, v. split; [reflexivity|]. simpl. auto 10.
    + intros (k & Hk & Hblank). exfalso.
      pose proof (missingFields_nil req k Hm Hk) as Ht. unfold field in Ht.
      destruct Hblank as [Hb|Hb]; rewrite Hb in Ht; discriminate.
Qed.

(** C6, counterexample. A name of three spaces is accepted with 201 and
    the row is stored with the empty string as its name. *)
Lemma whitespace_only_name_is_stored :
  post_api_register blank_name (fresh 2025)
  = (Return (mkResponse 201
       (Registered "COL2025001" (JS.Str "   ") (JS.Str "ada@example.org")
          (JS.Str "Physics") (JS.Str "1 Main St") (JS.Str "A"))),
     mkWorld
       (mkTable [Student.mk 1 "COL2025001" "" "ada@example.org" "Physics" "1 Main St" "A"] 1)
       2025 []
       [SelectLatestRegNo "COL2025%";
        InsertStudent "COL2025001" "" "ada@example.org" "Physics" "1 Main St" "A"]
       []).
Proof. vm_compute. reflexivity. Qed.

(** ** Internal errors (C8) *)

Lemma internal_failure_throws (req : gmap string JS.value) (w w1 : world) (err : error) :
  internal_failure req w err w1 → register_attempt req w = (Throw err, w1).
Proof.
  intros [x w' Hm D | n e d a v x w' Hm F1 F2 F3 F4 F5 Hf D | x w' T]; [| |exact T].
  - apply driver_select_throw in D as [Hf ->].
    destruct (register_attempt_cases req w)
      as [[Hne _]|[(_ & y & Hy & E)|[(_ & Hn & _)|(_ & Hn & _)]]];
      try congruence.
    rewrite E. unfold after_select. congruence.
  - destruct (register_attempt_cases req w)
      as [[Hne _]|[(_ & y & Hy & _)|[(_ & _ & k & Hk & Hns & _)|(_ & _ & n' & e' & d' & a' & v' & HF & _ & E)]]];
      try congruence.
    + exfalso. unfold required_fields in Hk.
      repeat (apply elem_of_cons in Hk as [->|Hk]; [eapply Hns; eassumption|]).
      by apply elem_of_nil in Hk.
    + destruct HF as (G1 & G2 & G3 & G4 & G5).
      assert (n' = n ∧ e' = e ∧ d' = d ∧ a' = a ∧ v' = v) as (-> & -> & -> & -> & ->)
        by (repeat split; congruence).
      rewrite E, D. reflexivity.
Qed.

(** C8. When the store read or the store write of a registration request
    fails, or the [try] block throws for any other reason, the caller
    receives status 500 with the fixed body "Internal Server Error",
    which is the same whatever the error was; the error goes to the
    console only. Nothing is retried: the SELECT was sent once and the
    INSERT at most once, and the table is as it was. *)
Theorem internal_failure_is_generic
    (req : gmap string JS.value) (w w1 : world) (err : error) :
  internal_failure req w err w1 →
  post_api_register req w
  = (Return (mkResponse 500 (Failure "Internal Server Error")),
     logged "Registration error:" err w1)
  ∧ database w1 = database w
  ∧ (trace w1 = trace w ++ [latest_query (year w)]
     ∨ ∃ n e d a v,
         trace w1 = trace w ++ [latest_query (year w); insert_query w n e d a v]).
Proof.
  intros H. apply internal_failure_throws in H.
  split.
  - rewrite post_api_register_catch, H. reflexivity.
  - now apply register_attempt_throw in H as (_ & ? & ?).
Qed.

Lemma internal_failure_is_generic_witness :
  post_api_register ada (mkWorld empty_table 2025 [Some disk_io_error] [] [])
  = (Return (mkResponse 500 (Failure "Internal Server Error")),
     mkWorld empty_table 2025 [] [SelectLatestRegNo "COL2025%"]
       [("Registration error:", disk_io_error)]).
Proof.
  pose (w := mkWorld empty_table 2025 [Some disk_io_error] [] []).
  assert (H : internal_failure ada w disk_io_error
                (mkWorld empty_table 2025 [] [SelectLatestRegNo "COL2025%"] [])).
  { apply read_fails; reflexivity. }
  destruct (internal_failure_is_generic ada w _ _ H) as [E _].
  exact E.
Defined.

(** ** Uniqueness of registration numbers (C10) *)

Lemma regs_inserted (t : table) (reg n e d a v : string) :
  regs (inserted t reg n e d a v) = regs t ++ [reg].
Proof. unfold regs, inserted. simpl. now rewrite fmap_app. Qed.

(** C10. No two stored records share a registration number: a table
    whose numbers are pairwise distinct is left so by every registration
    request. When the number the allocator yields for a request that
    passed the presence check is already in the table, the answer is the
    internal error and the table is as it was. *)
Theorem reg_no_stays_unique (req : gmap string JS.value) (w : world) :
  NoDup (regs (database w)) →
  ∃ resp w', post_api_register req w = (Return resp, w')
  ∧ NoDup (regs (database w'))
  ∧ (missingFields req = [] →
     allocation (year w) (database w) ∈ regs (database w) →
     resp = internal_server_error ∧ database w' = database w).
Proof.
  intros Hnd.
  destruct (post_api_register_cases req w)
    as [[Hm E]|[(Hm & err & w1 & T & E)|(Hm & _ & _ & Hnew & n & e & d & a & v & _ & _ & E)]];
    rewrite E; eexists _, _; (split; [reflexivity|]).
  - split; [assumption|]. intros Hm'. contradiction.
  - apply register_attempt_throw in T as (_ & T & _). simpl. rewrite T. auto.
  - simpl. rewrite regs_inserted. split.
    + apply NoDup_app. split; [assumption|]. split; [|apply NoDup_singleton].
      intros x Hx ->%list_elem_of_singleton. contradiction.
    + intros _ Hin. contradiction.
Qed.

Lemma reg_no_stays_unique_witness :
  ∃ w', post_api_register ada (mkWorld overflown 2025 [] [] [])
        = (Return internal_server_error, w')
  ∧ database w' = overflown.
Proof.
  pose (w := mkWorld overflown 2025 [] [] []).
  assert (Hnd : NoDup (regs (database w))).
  { refine (bool_decide_unpack _ _). vm_compute. exact I. }
  destruct (reg_no_stays_unique ada w Hnd) as (resp & w' & E & _ & Hdup).
  destruct Hdup as [-> Hdb].
  - reflexivity.
  - refine (bool_decide_unpack _ _). vm_compute. exact I.
  - exists w'. split; [exact E | exact Hdb].
Defined.

(** ** The listing route (C7, C9) *)

Lemma get_api_students_ok (query : gmap string string) (w : world) :
  next_fault w = None →
  get_api_students query w
  = (Return (mkResponse 200 (Students (merge_sort id_desc (selected query (database w))))),
     after_call (listing_query query) (database w) w).
Proof.
  intros Hf. unfold get_api_students, try_catch, mbind, io_bind, dbAll, selected, listing_query.
  destruct (query !! "department") as [d|]; [destruct (JS.truthy (JS.Str d))|];
    rewrite (driver_ok _ _ Hf); reflexivity.
Qed.

(** C7. With no department parameter the listing answers 200 with all
    stored records, and with a department parameter (not the empty
    string, which C9 treats) with exactly the records whose department
    equals the parameter, every record of another department being left
    out; in both cases the records come in descending order of id, the
    table is not changed, and each record appears as often as it is
    stored. *)
Theorem listing_is_filtered_and_ordered (query : gmap string string) (w : world) :
  next_fault w = None →
  (∀ d, query !! "department" = Some d → d ≠ "") →
  ∃ students w',
    get_api_students query w = (Return (mkResponse 200 (Students students)), w')
    ∧ database w' = database w
    ∧ StronglySorted id_desc students
    ∧ (query !! "department" = None → students ≡ₚ rows (database w))
    ∧ (∀ d, query !! "department" = Some d →
         students ≡ₚ filter (λ r, Student.department r = d) (rows (database w))
         ∧ (∀ r, r ∈ students ↔ r ∈ rows (database w) ∧ Student.department r = d)
         ∧ (∀ r, r ∈ rows (database w) → Student.department r ≠ d → r ∉ students)).
Proof.
  intros Hf Hne. eexists _, _. split; [apply (get_api_students_ok query w Hf)|].
  split; [reflexivity|]. split; [apply StronglySorted_merge_sort; apply _|].
  unfold selected, listing_query. split.
  - intros ->. apply merge_sort_Permutation.
  - intros d Hd. rewrite Hd.
    assert (JS.truthy (JS.Str d) = true) as ->.
    { simpl. apply negb_true_iff, String.eqb_neq. now apply Hne. }
    pose proof (merge_sort_Permutation id_desc
                  (filter (λ r, Student.department r = d) (rows (database w)))) as Hp.
    split; [exact Hp|]. split.
    + intros r. rewrite Hp, list_elem_of_filter. tauto.
    + intros r _ Hr. rewrite Hp, list_elem_of_filter. tauto.
Qed.

Lemma listing_is_filtered_and_ordered_witness :
  ∃ w',
    get_api_students {[ "department" := "Physics" ]} (mkWorld three_students 2025 [] [] [])
    = (Return (mkResponse 200 (Students
         [Student.mk 3 "COL2025003" "Cy" "cy@example.org" "Physics" "3 Main St" "A";
          Student.mk 1 "COL2025001" "Ada" "ada@example.org" "Physics" "1 Main St" "A"])), w').
Proof.
  pose (w := mkWorld three_students 2025 [] [] []).
  pose (query := {[ "department" := "Physics" ]} : gmap string string).
  assert (Hne : ∀ d, query !! "department" = Some d → d ≠ "").
  { intros d Hd. vm_compute in Hd. injection Hd as <-. discriminate. }
  destruct (listing_is_filtered_and_ordered query w eq_refl Hne) as (students & w' & E & _).
  pose proof E as E'. vm_compute in E'. injection E' as <- <-.
  eexists. exact E.
Defined.

(** C9. A department parameter that is present but empty is treated as
    if it were absent: the answer is the one to the same request without
    the parameter, and it carries all stored records. *)
Theorem empty_department_lists_everything (query : gmap string string) (w : world) :
  query !! "department" = Some "" →
  get_api_students query w = get_api_students (delete "department" query) w
  ∧ (next_fault w = None →
     ∃ students w',
       get_api_students query w = (Return (mkResponse 200 (Students students)), w')
       ∧ students ≡ₚ rows (database w)).
Proof.
  intros Hq. split.
  - unfold get_api_students. now rewrite Hq, lookup_delete_eq.
  - intros Hf. eexists _, _. split; [apply (get_api_students_ok query w Hf)|].
    unfold selected, listing_query. rewrite Hq. apply merge_sort_Permutation.
Qed.

Lemma empty_department_lists_everything_witness :
  ∃ w',
    get_api_students {[ "department" := "" ]} (mkWorld three_students 2025 [] [] [])
    = (Return (mkResponse 200 (Students
         [Student.mk 3 "COL2025003" "Cy" "cy@example.org" "Physics" "3 Main St" "A";
          Student.mk 2 "COL2025002" "Bob" "bob@example.org" "Biology" "2 Main St" "B";
          Student.mk 1 "COL2025001" "Ada" "ada@example.org" "Physics" "1 Main St" "A"])), w').
Proof.
  pose (w := mkWorld three_students 2025 [] [] []).
  pose (query := {[ "department" := "" ]} : gmap string string).
  destruct (empty_department_lists_everything query w eq_refl) as [_ H].
  destruct (H eq_refl) as (students & w' & E & _).
  pose proof E as E'. vm_compute in E'. injection E' as <- <-.
  eexists. exact E.
Defined.

(** ** The allocator against its description (C1) *)

Lemma substring_to_end (s : string) (n m : nat) :
  (String.length s ≤ n + m)%nat → substring n m s = string_drop n s.
Proof.
  revert n m. induction s as [|c s IH]; intros n m H.
  - destruct n, m; reflexivity.
  - destruct n as [|n]; simpl in *.
    + destruct m as [|m]; [lia|]. rewrite IH by lia. reflexivity.
    + apply IH. lia.
Qed.

Lemma string_drop_length (n : nat) (s : string) :
  String.length (string_drop n s) = (String.length s - n)%nat.
Proof.
  revert s. induction n as [|n IH]; intros s; simpl; [lia|].
  destruct s as [|c s]; [reflexivity|]. apply IH.
Qed.

Lemma last_chars_length (s : string) :
  (3 ≤ String.length s)%nat → String.length (last_chars 3 s) = 3%nat.
Proof.
  intros H. unfold last_chars. rewrite substring_to_end by lia.
  rewrite string_drop_length. lia.
Qed.

Lemma slice_last_chars (s : string) : JS.slice (-3) s = last_chars 3 s.
Proof.
  unfold JS.slice, last_chars. change (-3 <? 0) with true. cbv iota.
  rewrite substring_to_end by lia. f_equal. lia.
Qed.

Lemma fill_prefix_zeros (k : nat) :
  JS.fill_prefix k "0" "0" = zeros k ∧ JS.fill_prefix k "0" "" = zeros k.
Proof.
  induction k as [|k [IH1 IH2]]; [split; reflexivity|].
  split; simpl; now rewrite IH2.
Qed.

Lemma sequencePart_zero_padded (n : Z) : sequencePart n = zero_padded 3 n.
Proof.
  unfold sequencePart, zero_padded, JS.padStart.
  destruct (Nat.leb_spec 3 (String.length (JS.Number_toString n))) as [H|H].
  - replace (3 - String.length (JS.Number_toString n))%nat with 0%nat by lia. reflexivity.
  - simpl (String.eqb _ _). cbv iota. now rewrite (proj1 (fill_prefix_zeros _)).
Qed.

Lemma digit_not_white (c : ascii) :
  is_digit c = true →
  JS.is_white c = false ∧ c ≠ "-"%char ∧ c ≠ "+"%char
  ∧ JS.digit_value c = Some (code c - 48).
Proof.
  intros H. unfold JS.digit_value. rewrite H.
  destruct c as [[] [] [] [] [] [] [] []]; vm_compute in H; try discriminate;
    repeat split; discriminate.
Qed.

Lemma digits_prefix_digits (s : string) (acc : Z) :
  string_forall is_digit s = true →
  JS.digits_prefix s (Some acc) = Some (decimal_value s acc).
Proof.
  revert acc. induction s as [|c s IH]; intros acc H; [reflexivity|].
  simpl in H. apply andb_true_iff in H as [Hc Hs].
  destruct (digit_not_white c Hc) as (_ & _ & _ & Hd).
  simpl. rewrite Hd. now apply IH.
Qed.

(** [parseInt] reads a string of digits as the number it denotes. *)
Lemma parseInt10_digits (s : string) :
  s ≠ "" → string_forall is_digit s = true →
  JS.parseInt10 s = Some (decimal_value s 0).
Proof.
  intros Hne H. destruct s as [|c s]; [congruence|].
  simpl in H. apply andb_true_iff in H as [Hc Hs].
  destruct (digit_not_white c Hc) as (Hw & Hm & Hp & Hd).
  unfold JS.parseInt10. simpl. rewrite Hw.
  assert (E : JS.digits_prefix (String c s) None = Some (decimal_value (String c s) 0)).
  { simpl. rewrite Hd. now apply digits_prefix_digits. }
  destruct c as [[] [] [] [] [] [] [] []]; try exact E; congruence.
Qed.

Lemma trimStart_forall (p : ascii → bool) (s : string) :
  string_forall p s = true → string_forall p (JS.trimStart s) = true.
Proof.
  induction s as [|c s IH]; [reflexivity|]. intros H. simpl.
  destruct (JS.is_white c); [|exact H].
  simpl in H. apply andb_true_iff in H as [_ H]. auto.
Qed.

Lemma digits_prefix_no_digit (s : string) :
  string_forall not_digit s = true → JS.digits_prefix s None = None.
Proof.
  destruct s as [|c s]; [reflexivity|]. simpl. unfold JS.digit_value, not_digit.
  intros [Hc _]%andb_true_iff. apply negb_true_iff in Hc. now rewrite Hc.
Qed.

(** [parseInt] fails on a string without any digit. *)
Lemma parseInt10_no_digit (s : string) :
  string_forall not_digit s = true → JS.parseInt10 s = None.
Proof.
  intros H. apply trimStart_forall in H. unfold JS.parseInt10.
  destruct (JS.trimStart s) as [|c r] eqn:E; [reflexivity|].
  assert (Hr : JS.digits_prefix r None = None).
  { apply digits_prefix_no_digit. simpl in H. now apply andb_true_iff in H as [_ H]. }
  pose proof (digits_prefix_no_digit _ H) as Hcr.
  destruct c as [[] [] [] [] [] [] [] []]; try exact Hcr; now rewrite Hr.
Qed.

Lemma prefix_nonempty (y : Z) (r : string) : prefix y +:+ r ≠ "".
Proof. discriminate. Qed.

Lemma tag_upper_row (t : table) (r : Student.t) :
  Forall tag_upper (regs t) → r ∈ rows t → tag_upper (Student.reg_no r).
Proof.
  intros H Hr. rewrite Forall_forall in H. apply H.
  unfold regs. now apply list_elem_of_fmap_2.
Qed.

(** C1. In a world whose next store call does not fail and whose
    registration numbers spell COL in capitals whenever they spell it,
    the allocator sends one query, returns a number and leaves the table
    alone. With [p] the prefix "COL" followed by the year: if no stored
    number starts with [p] the result is [p] followed by 1 zero-padded to
    width 3; otherwise, [m] being the record that comes first when the
    numbers starting with [p] are put in descending order, the result is
    [p] followed by the next sequence zero-padded to width 3, the next
    sequence being what [parseInt(_, 10)] makes of the last 3 characters
    of [m]'s number plus 1, or 1 when it fails; in particular it is the
    denoted number plus 1 when these characters are digits, and 1 when
    none of them is a digit. *)
Theorem allocator_follows_the_algorithm (w : world) :
  next_fault w = None →
  Forall tag_upper (regs (database w)) →
  let p := "COL" +:+ JS.Number_toString (year w) in
  ∃ regNo w',
    generateRegistrationNumber w = (Return regNo, w')
    ∧ database w' = database w
    ∧ trace w' = trace w ++ [SelectLatestRegNo (p +:+ "%")]
    ∧ ((∀ r, r ∈ rows (database w) → ¬ starts_with p (Student.reg_no r)) →
       regNo = p +:+ zero_padded 3 1)
    ∧ (∀ m, m ∈ rows (database w) → starts_with p (Student.reg_no m) →
         (∀ r, r ∈ rows (database w) → starts_with p (Student.reg_no r) →
               String.le (Student.reg_no r) (Student.reg_no m)) →
         ∃ next,
           regNo = p +:+ zero_padded 3 next
           ∧ next = match JS.parseInt10 (last_chars 3 (Student.reg_no m)) with
                    | Some parsed => parsed + 1
                    | None => 1
                    end
           ∧ (string_forall is_digit (last_chars 3 (Student.reg_no m)) = true →
              next = decimal_value (last_chars 3 (Student.reg_no m)) 0 + 1)
           ∧ (string_forall not_digit (last_chars 3 (Student.reg_no m)) = true →
              next = 1)).
Proof.
  intros Hf Htag p. eexists _, _. split; [apply (generate_ok w Hf)|].
  split; [reflexivity|]. split; [reflexivity|].
  fold (prefix (year w)) in p.
  assert (Hlike : ∀ r, r ∈ rows (database w) →
            Sqlite.like (prefix (year w) +:+ "%") (Student.reg_no r)
            = String.prefix p (Student.reg_no r)).
  { intros r Hr. apply like_year_prefix. eauto using tag_upper_row. }
  unfold allocation. split.
  - intros Hnone. rewrite latest_none; [apply f_equal, sequencePart_zero_padded|].
    intros r Hr. rewrite (Hlike r Hr). apply not_true_is_false, (Hnone r Hr).
  - intros m Hm Hstart Hmax.
    destruct (latest_max (year w) (database w) m Hm) as (m' & -> & Hreg).
    { now rewrite (Hlike m Hm). }
    { intros r Hr Hl. rewrite (Hlike r Hr) in Hl. now apply Hmax. }
    assert (Hnext : nextSequence (Some m')
                    = match JS.parseInt10 (last_chars 3 (Student.reg_no m)) with
                      | Some parsed => parsed + 1
                      | None => 1
                      end).
    { unfold nextSequence. rewrite Hreg, slice_last_chars.
      destruct (prefix_inv _ _ Hstart) as [r' ->]. reflexivity. }
    exists (nextSequence (Some m')).
    split; [apply f_equal, sequencePart_zero_padded|].
    split; [exact Hnext|]. rewrite Hnext. split.
    + intros Hd. rewrite parseInt10_digits; [reflexivity| |exact Hd].
      intros E. apply (f_equal String.length) in E.
      rewrite last_chars_length in E; [discriminate|].
      destruct (prefix_inv _ _ Hstart) as [r' ->].
      unfold p, prefix. rewrite !length_append. simpl. lia.
    + intros Hn. now rewrite parseInt10_no_digit.
Qed.

Lemma allocator_follows_the_algorithm_witness :
  ∃ w', generateRegistrationNumber (mkWorld three_students 2025 [] [] [])
        = (Return "COL2025004", w').
Proof.
  pose (w := mkWorld three_students 2025 [] [] []).
  assert (Htag : Forall tag_upper (regs (database w))).
  { repeat constructor; intros _; reflexivity. }
  destruct (allocator_follows_the_algorithm w eq_refl Htag)
    as (regNo & w' & E & _ & _ & _ & Hsome).
  destruct (Hsome (Student.mk 3 "COL2025003" "Cy" "cy@example.org" "Physics" "3 Main St" "A"))
    as (next & -> & -> & _).
  - set_solver.
  - reflexivity.
  - intros r Hr _. apply Is_true_true.
    repeat (apply elem_of_cons in Hr as [->|Hr]; [reflexivity|]).
    by apply elem_of_nil in Hr.
  - exists w'. exact E.
Defined.


(** ** Serial registrations within one year (C2, C3, C4) *)

Lemma valid_submission_fields (req : gmap string JS.value) :
  valid_submission req →
  ∃ n e d a v,
    (field req "name" = JS.Str n ∧ field req "email" = JS.Str e
     ∧ field req "department" = JS.Str d ∧ field req "address" = JS.Str a
     ∧ field req "division" = JS.Str v)
    ∧ (n ≠ "" ∧ e ≠ "" ∧ d ≠ "" ∧ a ≠ "" ∧ v ≠ "").
Proof.
  intros Hv.
  destruct (Hv "name" ltac:(repeat constructor)) as (n & F1 & N1).
  destruct (Hv "email" ltac:(repeat constructor)) as (e & F2 & N2).
  destruct (Hv "department" ltac:(repeat constructor)) as (d & F3 & N3).
  destruct (Hv "address" ltac:(repeat constructor)) as (a & F4 & N4).
  destruct (Hv "division" ltac:(repeat constructor)) as (v & F5 & N5).
  exists n, e, d, a, v. auto 10.
Qed.

Lemma truthy_nonempty (s : string) : s ≠ "" → JS.truthy (JS.Str s) = true.
Proof. intros H. simpl. now apply negb_true_iff, String.eqb_neq. Qed.

Lemma valid_submission_passes (req : gmap string JS.value) :
  valid_submission req → missingFields req = [].
Proof.
  intros (n & e & d & a & v & (F1 & F2 & F3 & F4 & F5) & (N1 & N2 & N3 & N4 & N5))
    %valid_submission_fields.
  unfold missingFields. rewrite F1, F2, F3, F4, F5.
  now rewrite !truthy_nonempty by assumption.
Qed.

(** A valid submission, no fault, and a number that is not yet in the
    table: the row is stored and the answer is 201 with that number. *)
Lemma register_valid (req : gmap string JS.value) (w : world) :
  valid_submission req → calm w →
  allocation (year w) (database w) ∉ regs (database w) →
  ∃ w', post_api_register req w
        = (Return (accepted (allocation (year w) (database w)) req), w')
    ∧ calm w' ∧ year w' = year w
    ∧ regs (database w') = regs (database w) ++ [allocation (year w) (database w)].
Proof.
  intros Hv Hcalm Hnew.
  pose proof (valid_submission_passes req Hv) as Hm.
  pose proof (calm_next_fault w Hcalm) as Hf.
  assert (Hcalm1 : calm (after_select w)) by now apply calm_after_call.
  destruct (post_api_register_cases req w)
    as [[Hne _]|[(_ & err & w1 & T & _)|(_ & _ & _ & _ & n & e & d & a & v & HF & _ & E)]].
  - contradiction.
  - exfalso.
    destruct (register_attempt_cases req w)
      as [[Hne _]|[(_ & y & Hy & _)|[(_ & _ & k & Hk & Hns & _)|(_ & _ & n & e & d & a & v & _ & _ & E)]]].
    + contradiction.
    + congruence.
    + destruct (Hv k Hk) as (s & Hs & _). exact (Hns s Hs).
    + rewrite E in T.
      destruct (driver_insert_cases (after_select w) (allocation (year w) (database w))
                  (JS.trim n) (JS.trim e) (JS.trim d) (JS.trim a) (JS.trim v))
        as [(x & Hx & _)|[(_ & Hin & _)|(_ & _ & D)]].
      * rewrite (calm_next_fault _ Hcalm1) in Hx. discriminate.
      * contradiction.
      * fold (insert_query w n e d a v) in D. rewrite D in T. discriminate.
  - rewrite E. destruct HF as (F1 & F2 & F3 & F4 & F5).
    eexists. split; [|split; [|split]].
    + unfold created, accepted. now rewrite F1, F2, F3, F4, F5.
    + now apply calm_after_call.
    + reflexivity.
    + apply regs_inserted.
Qed.

(** A number that is already in the table: the answer is the internal
    error and the table is as it was. *)
Lemma register_duplicate (req : gmap string JS.value) (w : world) :
  missingFields req = [] →
  allocation (year w) (database w) ∈ regs (database w) →
  ∃ w', post_api_register req w = (Return internal_server_error, w')
    ∧ database w' = database w.
Proof.
  intros Hm Hin.
  destruct (post_api_register_cases req w)
    as [[Hne _]|[(_ & err & w1 & T & E)|(_ & _ & _ & Hnew & _)]]; try contradiction.
  rewrite E. eexists. split; [reflexivity|].
  now apply register_attempt_throw in T as (_ & T & _).
Qed.

Lemma seqZ_snoc (k : Z) : 0 ≤ k → seqZ 1 (k + 1) = seqZ 1 k ++ [k + 1].
Proof.
  intros Hk. unfold seqZ.
  replace (Z.to_nat (k + 1)) with (S (Z.to_nat k)) by lia.
  rewrite seq_S, fmap_app. simpl. do 2 f_equal. lia.
Qed.

Lemma issued_succ (y k : Z) :
  0 ≤ k → issued y (k + 1) = issued y k ++ [numbered y (k + 1)].
Proof.
  intros Hk. unfold issued. rewrite seqZ_snoc by lia. now rewrite fmap_app.
Qed.

Lemma elem_of_issued (y n : Z) (reg : string) :
  reg ∈ issued y n ↔ ∃ i, 1 ≤ i ≤ n ∧ reg = numbered y i.
Proof.
  unfold issued. rewrite list_elem_of_fmap. split.
  - intros (i & -> & Hi%elem_of_seqZ). exists i. split; [lia | reflexivity].
  - intros (i & Hi & ->). exists i. split; [reflexivity|]. apply elem_of_seqZ. lia.
Qed.

Lemma numbered_inj (y i j : Z) :
  0 ≤ i ≤ 1000 → 0 ≤ j ≤ 1000 → numbered y i = numbered y j → i = j.
Proof.
  intros Hi Hj E. unfold numbered in E. apply String.app_inj in E.
  now apply sequencePart_inj.
Qed.

Lemma numbered_le (y i j : Z) :
  1 ≤ i ≤ 1000 → j = Z.min (Z.max i j) 999 →
  String.le (numbered y i) (numbered y j).
Proof.
  intros Hi Hj. unfold String.le, numbered. rewrite leb_append. apply Is_true_true.
  destruct (Z.eq_dec i 1000) as [->|Hne].
  - replace j with 999 by lia. apply sequencePart_1000_leb.
  - apply sequencePart_leb; lia.
Qed.

(** With the numbers 1 to [k] of the year in the table, and nothing else
    of that year, the allocator yields the number after [k], except that
    from 1000 on it yields 1000 again. *)
Lemma allocation_after (y k : Z) (t : table) (regs0 : list string) :
  regs t = regs0 ++ issued y k → unused_year y regs0 → 0 ≤ k ≤ 1000 →
  allocation y t = numbered y (Z.min k 999 + 1).
Proof.
  intros Hregs Hun Hk. unfold allocation, numbered. do 2 f_equal.
  assert (Hold : ∀ r, r ∈ rows t →
            Sqlite.like (prefix y +:+ "%") (Student.reg_no r) = true →
            ∃ i, 1 ≤ i ≤ k ∧ Student.reg_no r = numbered y i).
  { intros r Hr Hl.
    assert (Hin : Student.reg_no r ∈ regs t) by now apply list_elem_of_fmap_2.
    rewrite Hregs in Hin. apply elem_of_app in Hin as [Hin|Hin].
    - unfold unused_year in Hun. rewrite Forall_forall in Hun.
      rewrite (Hun _ Hin) in Hl. discriminate.
    - now apply elem_of_issued. }
  destruct (Z.eq_dec k 0) as [->|Hpos].
  - rewrite latest_none; [reflexivity|].
    intros r Hr. apply not_true_is_false. intros Hl.
    destruct (Hold r Hr Hl) as (i & Hi & _). lia.
  - set (j := Z.min k 999).
    assert (Hj : numbered y j ∈ regs t).
    { rewrite Hregs. apply elem_of_app. right. apply elem_of_issued. exists j. split; [lia | reflexivity]. }
    apply list_elem_of_fmap in Hj as (m & Hm & Hmt).
    destruct (latest_max y t m Hmt) as (m' & -> & Hreg).
    + rewrite <- Hm. apply like_year_append.
    + intros r Hr Hl. destruct (Hold r Hr Hl) as (i & Hi & ->). rewrite <- Hm.
      apply numbered_le; lia.
    + unfold nextSequence. rewrite Hreg, <- Hm. unfold numbered.
      destruct (sequencePart_small j ltac:(lia)) as (Hlen & _ & Hparse).
      rewrite slice_last3_append by exact Hlen. rewrite Hparse. reflexivity.
Qed.

Lemma numbered_unused (y k : Z) (regs0 : list string) :
  unused_year y regs0 → numbered y k ∉ regs0.
Proof.
  intros Hun Hin. unfold unused_year in Hun. rewrite Forall_forall in Hun.
  pose proof (Hun _ Hin) as H. unfold numbered in H.
  rewrite like_year_append in H. discriminate.
Qed.

Lemma numbered_fresh (y k : Z) (regs0 : list string) :
  unused_year y regs0 → 0 ≤ k ≤ 999 →
  numbered y (k + 1) ∉ regs0 ++ issued y k.
Proof.
  intros Hun Hk [Hin|Hin]%elem_of_app.
  - exact (numbered_unused y _ regs0 Hun Hin).
  - apply elem_of_issued in Hin as (i & Hi & E).
    apply numbered_inj in E; lia.
Qed.

Lemma serve_registrations_cons (req : gmap string JS.value)
    (rest : list (gmap string JS.value)) (w w1 w2 : world)
    (r : response) (rs : list response) :
  post_api_register req w = (Return r, w1) →
  serve_registrations rest w1 = (Return rs, w2) →
  serve_registrations (req :: rest) w = (Return (r :: rs), w2).
Proof.
  intros H1 H2. simpl. unfold mbind, io_bind. now rewrite H1, H2.
Qed.

Lemma serve_registrations_snoc (reqs : list (gmap string JS.value))
    (req : gmap string JS.value) (w w1 w2 : world)
    (rs : list response) (r : response) :
  serve_registrations reqs w = (Return rs, w1) →
  post_api_register req w1 = (Return r, w2) →
  serve_registrations (reqs ++ [req]) w = (Return (rs ++ [r]), w2).
Proof.
  revert w rs. induction reqs as [|q reqs IH]; intros w rs H1 H2.
  - injection H1 as <- <-. now apply serve_registrations_cons with (w1 := w2).
  - simpl in H1. unfold mbind, io_bind in H1.
    destruct (post_api_register q w) as [[r0|?] w0] eqn:E0; [|discriminate].
    destruct (serve_registrations reqs w0) as [[rs0|?] w0'] eqn:E1; [|discriminate].
    injection H1 as <- <-.
    apply serve_registrations_cons with (w1 := w0); [exact E0|].
    now apply IH.
Qed.

(** From a table that holds the numbers 1 to [k] of the year and nothing
    else of that year, valid submissions served one after the other get
    the numbers after [k], as long as 1000 is not passed. *)
Lemma serve_from (reqs : list (gmap string JS.value)) (w : world)
    (k : Z) (regs0 : list string) :
  calm w →
  regs (database w) = regs0 ++ issued (year w) k →
  unused_year (year w) regs0 →
  Forall valid_submission reqs →
  0 ≤ k → k + Z.of_nat (length reqs) ≤ 1000 →
  ∃ w', serve_registrations reqs w
        = (Return (accepted_from (year w) (k + 1) reqs), w')
    ∧ calm w' ∧ year w' = year w
    ∧ regs (database w') = regs0 ++ issued (year w) (k + Z.of_nat (length reqs)).
Proof.
  revert w k. induction reqs as [|req reqs IH]; intros w k Hcalm Hregs Hun Hv Hk Hlen.
  - exists w. simpl. rewrite Z.add_0_r. auto.
  - apply Forall_cons in Hv as [Hv Hvs]. simpl length in Hlen.
    pose proof (allocation_after _ k _ _ Hregs Hun ltac:(lia)) as Halloc.
    replace (Z.min k 999 + 1) with (k + 1) in Halloc by lia.
    destruct (register_valid req w Hv Hcalm) as (w1 & E1 & Hcalm1 & Hy1 & Hregs1).
    { rewrite Halloc, Hregs. apply numbered_fresh; [assumption | lia]. }
    rewrite Halloc in E1, Hregs1.
    rewrite Hregs, <- app_assoc, <- issued_succ in Hregs1 by lia.
    rewrite <- Hy1 in Hregs1, Hun.
    destruct (IH w1 (k + 1) Hcalm1 Hregs1 Hun Hvs ltac:(lia) ltac:(lia))
      as (w2 & E2 & Hcalm2 & Hy2 & Hregs2).
    exists w2. rewrite Hy1 in *. split; [|split; [|split]].
    + now apply serve_registrations_cons with (w1 := w1).
    + assumption.
    + congruence.
    + rewrite Hregs2. do 2 f_equal. simpl length. lia.
Qed.

(** Once the numbers 1 to 1000 of the year are in the table, every
    further submission that passes the presence check is answered with
    the internal error: the allocator yields 1000 again. *)
Lemma register_after_1000 (req : gmap string JS.value) (w : world) (regs0 : list string) :
  regs (database w) = regs0 ++ issued (year w) 1000 →
  unused_year (year w) regs0 →
  missingFields req = [] →
  allocation (year w) (database w) = numbered (year w) 1000
  ∧ numbered (year w) 1000 ∈ regs (database w)
  ∧ ∃ w', post_api_register req w = (Return internal_server_error, w')
      ∧ database w' = database w.
Proof.
  intros Hregs Hun Hm.
  pose proof (allocation_after _ 1000 _ _ Hregs Hun ltac:(lia)) as Halloc.
  change (Z.min 1000 999 + 1) with 1000 in Halloc.
  assert (Hin : numbered (year w) 1000 ∈ regs (database w)).
  { rewrite Hregs. apply elem_of_app. right. apply elem_of_issued.
    exists 1000. split; [lia | reflexivity]. }
  split; [exact Halloc|]. split; [exact Hin|].
  apply register_duplicate; [exact Hm | now rewrite Halloc].
Qed.

Lemma lookup_accepted_from (y k : Z) (reqs : list (gmap string JS.value))
    (i : nat) (req : gmap string JS.value) :
  reqs !! i = Some req →
  accepted_from y k reqs !! i = Some (accepted (numbered y (k + Z.of_nat i)) req).
Proof.
  revert k i. induction reqs as [|q reqs IH]; intros k i H; [discriminate|].
  destruct i as [|i]; simpl in *.
  - injection H as ->. now rewrite Z.add_0_r.
  - rewrite (IH (k + 1) i H). do 3 f_equal. lia.
Qed.

Lemma length_accepted_from (y k : Z) (reqs : list (gmap string JS.value)) :
  length (accepted_from y k reqs) = length reqs.
Proof. revert k. induction reqs as [|q reqs IH]; intros k; simpl; auto. Qed.

(** A table without any number that starts with the year's prefix. *)
Lemma unused_year_starts_with (y : Z) (l : list string) :
  Forall tag_upper l →
  (∀ reg, reg ∈ l → ¬ starts_with (prefix y) reg) →
  unused_year y l.
Proof.
  intros Htag Hno. unfold unused_year. rewrite Forall_forall in *.
  intros reg Hreg. rewrite like_year_prefix by auto.
  apply not_true_is_false. now apply Hno.
Qed.

(** The property asked of the stored numbers holds of a fresh table and
    is kept by every registration request. *)
Lemma tag_upper_kept (req : gmap string JS.value) (w w' : world) (resp : response) :
  Forall tag_upper (regs (database w)) →
  post_api_register req w = (Return resp, w') →
  Forall tag_upper (regs (database w')).
Proof.
  intros Htag H.
  destruct (post_api_register_cases req w)
    as [[_ E]|[(_ & err & w1 & T & E)|(_ & _ & _ & _ & n & e & d & a & v & _ & _ & E)]];
    rewrite E in H; injection H as _ <-.
  - assumption.
  - apply register_attempt_throw in T as (_ & T & _). simpl. now rewrite T.
  - simpl. rewrite regs_inserted. apply Forall_app. split; [assumption|].
    apply Forall_singleton. intros _. unfold allocation, prefix.
    exact (prefix_append "COL" (_ +:+ _)).
Qed.

Lemma valid_ada : valid_submission ada.
Proof.
  intros k Hk. unfold required_fields in Hk.
  repeat (apply elem_of_cons in Hk as [->|Hk];
          [eexists; split; [reflexivity | discriminate]|]).
  by apply elem_of_nil in Hk.
Qed.

(** C3. In a world without store faults whose table holds no number that
    starts with the prefix of the current year (and spells COL in
    capitals where it spells it), the first valid registration is
    assigned COL{year}001 and a second one right after it COL{year}002,
    and these two numbers are what the table gains. *)
Theorem first_two_of_the_year (req1 req2 : gmap string JS.value) (w : world) :
  calm w →
  Forall tag_upper (regs (database w)) →
  (∀ reg, reg ∈ regs (database w) →
          ¬ starts_with ("COL" +:+ JS.Number_toString (year w)) reg) →
  valid_submission req1 → valid_submission req2 →
  let p := "COL" +:+ JS.Number_toString (year w) in
  ∃ w', serve_registrations [req1; req2] w
        = (Return [accepted (p +:+ "001") req1; accepted (p +:+ "002") req2], w')
    ∧ regs (database w') = regs (database w) ++ [p +:+ "001"; p +:+ "002"].
Proof.
  intros Hcalm Htag Hno Hv1 Hv2 p.
  pose proof (unused_year_starts_with (year w) _ Htag Hno) as Hun.
  destruct (serve_from [req1; req2] w 0 (regs (database w)) Hcalm) as (w' & E & _ & _ & Hregs).
  - unfold issued. simpl. now rewrite app_nil_r.
  - exact Hun.
  - auto.
  - lia.
  - simpl. lia.
  - exists w'. split; [exact E | exact Hregs].
Qed.

Lemma first_two_of_the_year_witness :
  ∃ w', serve_registrations [ada; blank_name] (fresh 2025)
        = (Return [accepted "COL2025001" ada; accepted "COL2025002" blank_name], w')
    ∧ regs (database w') = ["COL2025001"; "COL2025002"].
Proof.
  assert (Hv2 : valid_submission blank_name).
  { intros k Hk. unfold required_fields in Hk.
    repeat (apply elem_of_cons in Hk as [->|Hk];
            [eexists; split; [reflexivity | discriminate]|]).
    by apply elem_of_nil in Hk. }
  assert (Hno : ∀ reg, reg ∈ regs (database (fresh 2025)) →
                  ¬ starts_with ("COL" +:+ JS.Number_toString (year (fresh 2025))) reg).
  { intros reg Hreg. by apply elem_of_nil in Hreg. }
  exact (first_two_of_the_year ada blank_name (fresh 2025)
           (Forall_nil_2 _) (Forall_nil_2 _) Hno valid_ada Hv2).
Defined.

(** The world after 1000 valid submissions of the year 2025, served one
    after the other from a fresh table. *)
Lemma thousand_registrations :
  ∃ w, serve_registrations (replicate 1000 ada) (fresh 2025)
       = (Return (accepted_from 2025 1 (replicate 1000 ada)), w)
    ∧ calm w ∧ year w = 2025
    ∧ regs (database w) = issued 2025 1000.
Proof.
  destruct (serve_from (replicate 1000 ada) (fresh 2025) 0 [])
    as (w & E & Hcalm & Hy & Hregs).
  - apply Forall_nil_2.
  - reflexivity.
  - apply Forall_nil_2.
  - apply Forall_replicate, valid_ada.
  - lia.
  - rewrite length_replicate. lia.
  - exists w. rewrite length_replicate in Hregs. auto.
Qed.

(** Of 1001 valid submissions served one after the other in 2025 from a
    fresh table, without any store fault, the 1000th is assigned
    COL20251000 and the 1001st is assigned nothing: it is answered with
    the internal error. *)
Lemma thousand_and_first_is_refused :
  ∃ resps w',
    serve_registrations (replicate 1001 ada) (fresh 2025) = (Return resps, w')
    ∧ resps !! 999%nat = Some (accepted "COL20251000" ada)
    ∧ resps !! 1000%nat = Some internal_server_error.
Proof.
  destruct thousand_registrations as (w & E & Hcalm & Hy & Hregs).
  destruct (register_after_1000 ada w []) as (_ & _ & w' & E' & _).
  { now rewrite Hy. }
  { apply Forall_nil_2. }
  { apply valid_submission_passes, valid_ada. }
  exists (accepted_from 2025 1 (replicate 1000 ada) ++ [internal_server_error]), w'.
  split; [|split].
  - change 1001%nat with (1000 + 1)%nat. rewrite replicate_add.
    now apply serve_registrations_snoc with (w1 := w).
  - rewrite lookup_app_l by (rewrite length_accepted_from, length_replicate; lia).
    rewrite (lookup_accepted_from 2025 1 _ 999 ada); [reflexivity|].
    apply lookup_replicate_2. lia.
  - rewrite lookup_app_r by (rewrite length_accepted_from, length_replicate; lia).
    rewrite length_accepted_from, length_replicate. reflexivity.
Qed.

(** The format of the sequence part, which holds whatever the value: for
    every sequence value from 0 on the sequence part consists of digits and is
    the decimal numeral with zeros in front up to width 3; up to 999 it
    has exactly 3 characters, from which [parseInt] reads the value
    back; above 999 it is the numeral itself, of 4 or more digits; and
    whatever the next sequence value is, the allocator, its read
    succeeding, returns the prefix followed by that sequence part and
    raises nothing. *)
Theorem sequence_part_format (n : Z) :
  0 ≤ n →
  string_forall is_digit (sequencePart n) = true
  ∧ sequencePart n = zero_padded 3 n
  ∧ (n ≤ 999 →
     String.length (sequencePart n) = 3%nat ∧ JS.parseInt10 (sequencePart n) = Some n)
  ∧ (999 < n →
     (4 ≤ String.length (sequencePart n))%nat ∧ sequencePart n = JS.Number_toString n)
  ∧ (∀ w, next_fault w = None →
          nextSequence (latest (year w) (database w)) = n →
          ∃ w', generateRegistrationNumber w
                = (Return (prefix (year w) +:+ sequencePart n), w')).
Proof.
  intros Hn. split; [|split; [apply sequencePart_zero_padded|split; [|split]]].
  - destruct (Z_le_gt_dec n 999) as [Hs|Hl].
    + now destruct (sequencePart_small n ltac:(lia)) as (_ & ? & _).
    + rewrite sequencePart_large by lia. now apply Number_toString_large; lia.
  - intros Hs. destruct (sequencePart_small n ltac:(lia)) as (? & _ & ?). auto.
  - intros Hl. rewrite sequencePart_large by lia.
    split; [apply Number_toString_large; lia | reflexivity].
  - intros w Hf <-. eexists. apply (generate_ok w Hf).
Qed.

Lemma sequence_part_format_witness :
  sequencePart 7 = "007" ∧ sequencePart 1000 = "1000"
  ∧ ∃ w', generateRegistrationNumber (mkWorld overflown 2025 [] [] [])
          = (Return "COL20251000", w').
Proof.
  destruct (sequence_part_format 7 ltac:(lia)) as (_ & E7 & _).
  destruct (sequence_part_format 1000 ltac:(lia)) as (_ & _ & _ & H1000 & Hgen).
  destruct (H1000 ltac:(lia)) as [_ E1000].
  split; [exact E7|]. split; [exact E1000|].
  exact (Hgen (mkWorld overflown 2025 [] [] []) eq_refl eq_refl).
Defined.

(** C4, the defect. The claim says that allocation goes on after a
    sequence value above 999. After 1000 valid submissions of 2025 the
    table holds COL20251000, and the allocator, whose comment says it
    generates the next registration number, yields COL20251000 again:
    ordered as strings COL2025999 stays the latest number, and the last
    three characters cannot hold the four digits that were written. The
    next valid submission is refused by the UNIQUE constraint and
    answered with the internal error. *)
Lemma allocation_stalls_after_1000 :
  let w := (serve_registrations (replicate 1000 ada) (fresh 2025)).2 in
  (generateRegistrationNumber w).1 = Return "COL20251000"
  ∧ "COL20251000" ∈ regs (database w)
  ∧ (post_api_register ada w).1 = Return internal_server_error.
Proof.
  destruct thousand_registrations as (w0 & E & Hcalm & Hy & Hregs).
  rewrite E. simpl snd. intros w. subst w.
  destruct (register_after_1000 ada w0 []) as (Halloc & Hin & w' & E' & _).
  { now rewrite Hy. }
  { apply Forall_nil_2. }
  { apply valid_submission_passes, valid_ada. }
  rewrite Hy in Halloc, Hin.
  split; [|split].
  - rewrite (generate_ok w0 (calm_next_fault w0 Hcalm)). simpl fst.
    rewrite Hy, Halloc. reflexivity.
  - exact Hin.
  - now rewrite E'.
Qed.

(** * Further properties of the routes *)

(** ** What a registration request does to the world *)

(** The world a throwing [try] block leaves: the SELECT went out, and
    perhaps the INSERT, which failed. *)
Lemma register_attempt_throw_world (req : gmap string JS.value) (w w1 : world) (err : error) :
  register_attempt req w = (Throw err, w1) →
  w1 = after_select w
  ∨ ∃ n e d a v,
      w1 = after_call (insert_query w n e d a v) (database w) (after_select w).
Proof.
  intros H.
  destruct (register_attempt_cases req w)
    as [[_ E]|[(_ & x & _ & E)|[(_ & _ & k & _ & _ & E)|(_ & _ & n & e & d & a & v & _ & _ & E)]]];
    rewrite E in H.
  - discriminate.
  - injection H as _ <-. now left.
  - injection H as _ <-. now left.
  - destruct (driver (insert_query w n e d a v) (after_select w)) as [[?|x] w2] eqn:D;
      [discriminate|].
    injection H as _ <-. apply driver_insert_throw in D. subst w2.
    right. now exists n, e, d, a, v.
Qed.

Lemma register_attempt_throw_year (req : gmap string JS.value) (w w1 : world) (err : error) :
  register_attempt req w = (Throw err, w1) → year w1 = year w.
Proof.
  intros [->|(n & e & d & a & v & ->)]%register_attempt_throw_world; reflexivity.
Qed.

Lemma post_api_register_year (req : gmap string JS.value) (w w' : world) (resp : response) :
  post_api_register req w = (Return resp, w') → year w' = year w.
Proof.
  intros H.
  destruct (post_api_register_cases req w)
    as [[_ E]|[(_ & err & w1 & T & E)|(_ & _ & _ & _ & n & e & d & a & v & _ & _ & E)]];
    rewrite E in H; injection H as _ <-; try reflexivity.
  simpl. now apply register_attempt_throw_year in T.
Qed.

(** The three shapes of an answer of the registration route, with what
    each does to the table. *)
Lemma post_api_register_table (req : gmap string JS.value) (w w' : world) (resp : response) :
  post_api_register req w = (Return resp, w') →
  (status resp = 400 ∧ missingFields req ≠ [] ∧ w' = w)
  ∨ (resp = internal_server_error ∧ missingFields req = []
     ∧ database w' = database w)
  ∨ (status resp = 201 ∧ missingFields req = []
     ∧ (allocation (year w) (database w) ∉ regs (database w))
     ∧ ∃ n e d a v,
         (field req "name" = JS.Str n ∧ field req "email" = JS.Str e
          ∧ field req "department" = JS.Str d ∧ field req "address" = JS.Str a
          ∧ field req "division" = JS.Str v)
         ∧ resp = created w n e d a v
         ∧ database w'
           = inserted (database w) (allocation (year w) (database w))
               (JS.trim n) (JS.trim e) (JS.trim d) (JS.trim a) (JS.trim v)).
Proof.
  intros H.
  destruct (post_api_register_cases req w)
    as [[Hm E]|[(Hm & err & w1 & T & E)|(Hm & _ & _ & Hnew & n & e & d & a & v & HF & _ & E)]];
    rewrite E in H; injection H as <- <-.
  - left. auto.
  - right. left. apply register_attempt_throw in T as (_ & T & _). auto.
  - right. right. split; [reflexivity|]. split; [assumption|]. split; [assumption|].
    exists n, e, d, a, v. auto.
Qed.

(** ** Answers of the registration route *)

Lemma missingFields_nonempty (req : gmap string JS.value) :
  missingFields req ≠ [] ↔ ∃ k, k ∈ required_fields ∧ JS.truthy (field req k) = false.
Proof.
  rewrite missingFields_filter. split.
  - intros Hne.
    destruct (filter (λ k, JS.truthy (field req k) = false) required_fields)
      as [|k ks] eqn:E; [congruence|].
    exists k. assert (Hk : k ∈ k :: ks) by left.
    rewrite <- E in Hk. apply list_elem_of_filter in Hk. tauto.
  - intros (k & Hk & Hf) E.
    assert (Hin : k ∈ filter (λ k, JS.truthy (field req k) = false) required_fields)
      by (apply list_elem_of_filter; auto).
    rewrite E in Hin. by apply elem_of_nil in Hin.
Qed.

(** X1. An accepted registration (status 201) answers with the allocated
    number and the five submitted strings exactly as they were sent,
    while the row it appends carries the same number, the five strings
    with the white space at both ends removed, and an id one above the
    larger of the table's sequence counter and its largest id; the
    counter becomes that id. *)
Theorem accepted_registration (req : gmap string JS.value) (w w' : world) (resp : response) :
  post_api_register req w = (Return resp, w') →
  status resp = 201 →
  ∃ n e d a v,
    (field req "name" = JS.Str n ∧ field req "email" = JS.Str e
     ∧ field req "department" = JS.Str d ∧ field req "address" = JS.Str a
     ∧ field req "division" = JS.Str v)
    ∧ body resp
      = Registered (allocation (year w) (database w))
          (JS.Str n) (JS.Str e) (JS.Str d) (JS.Str a) (JS.Str v)
    ∧ rows (database w')
      = rows (database w)
        ++ [Student.mk (Z.max (sequence (database w)) (max_id (rows (database w))) + 1)
              (allocation (year w) (database w))
              (JS.trim n) (JS.trim e) (JS.trim d) (JS.trim a) (JS.trim v)]
    ∧ sequence (database w')
      = Z.max (sequence (database w)) (max_id (rows (database w))) + 1.
Proof.
  intros H Hs.
  destruct (post_api_register_table req w w' resp H)
    as [(Hs' & _)|[(-> & _)|(_ & _ & _ & n & e & d & a & v & HF & -> & ->)]].
  - congruence.
  - discriminate.
  - exists n, e, d, a, v. auto.
Qed.

Lemma accepted_registration_witness :
  ∃ resp w',
    post_api_register ada (fresh 2025) = (Return resp, w')
    ∧ body resp
      = Registered "COL2025001" (JS.Str "Ada") (JS.Str "ada@example.org")
          (JS.Str "Physics") (JS.Str " 1 Main St ") (JS.Str "A")
    ∧ rows (database w')
      = [Student.mk 1 "COL2025001" "Ada" "ada@example.org" "Physics" "1 Main St" "A"].
Proof.
  destruct (post_api_register_returns ada (fresh 2025)) as (resp & w' & E).
  assert (Hs : status resp = 201).
  { pose proof E as E'. vm_compute in E'. injection E' as <- _. reflexivity. }
  destruct (accepted_registration ada (fresh 2025) w' resp E Hs)
    as (n & e & d & a & v & (F1 & F2 & F3 & F4 & F5) & Hb & Hrows & _).
  vm_compute in F1, F2, F3, F4, F5.
  injection F1 as <-. injection F2 as <-. injection F3 as <-.
  injection F4 as <-. injection F5 as <-.
  exists resp, w'. split; [exact E|]. split; [exact Hb | exact Hrows].
Defined.

(** X2. A submission whose five fields are all truthy but one of which is
    not a string (a number, [true], an array, an object) is answered
    with the internal error and nothing is stored; when the allocator's
    read succeeds, that SELECT is the only statement sent, and the
    console gets the TypeError of the first such field's [trim]. *)
Theorem non_string_field_is_internal_error
    (req : gmap string JS.value) (w : world) (k : string) :
  missingFields req = [] →
  k ∈ required_fields →
  not_a_string (field req k) →
  ∃ w', post_api_register req w = (Return internal_server_error, w')
    ∧ database w' = database w
    ∧ (next_fault w = None →
       trace w' = trace w ++ [latest_query (year w)]
       ∧ ∃ k', k' ∈ required_fields ∧ not_a_string (field req k')
           ∧ console w'
             = console w
               ++ [("Registration error:", TypeError (k' +:+ ".trim is not a function"))]).
Proof.
  intros Hm Hk Hns. rewrite post_api_register_catch.
  destruct (register_attempt_cases req w)
    as [[Hne _]|[(_ & x & Hx & E)|[(_ & Hf & k' & Hk' & Hns' & E)|(_ & _ & n & e & d & a & v & HF & _ & _)]]].
  - contradiction.
  - rewrite E. eexists. split; [reflexivity|]. split; [reflexivity|]. congruence.
  - rewrite E. eexists. split; [reflexivity|]. split; [reflexivity|].
    intros _. split; [reflexivity|]. exists k'. auto.
  - exfalso. destruct HF as (F1 & F2 & F3 & F4 & F5). unfold required_fields in Hk.
    repeat (apply elem_of_cons in Hk as [->|Hk]; [eapply Hns; eassumption|]).
    by apply elem_of_nil in Hk.
Qed.

Lemma non_string_field_is_internal_error_witness :
  post_api_register numeric_name (fresh 2025)
  = (Return internal_server_error,
     mkWorld empty_table 2025 [] [SelectLatestRegNo "COL2025%"]
       [("Registration error:", TypeError "name.trim is not a function")]).
Proof.
  assert (Hns : not_a_string (field numeric_name "name")) by (intros s; discriminate).
  destruct (non_string_field_is_internal_error numeric_name (fresh 2025) "name"
              eq_refl ltac:(repeat constructor) Hns) as (w' & E & _).
  pose proof E as E'. vm_compute in E'. injection E' as <-. exact E.
Defined.

(** X3. The registration route always answers, with 400, 201 or 500. It
    answers 400 exactly when one of the five fields is absent or falsy
    (empty string, null, false, 0), and then the world is untouched;
    with 500 the table is as it was; with 201 the table has gained
    exactly one row at its end. The rows that were there are never
    changed or removed, and the clock is not touched. *)
Theorem registration_is_all_or_nothing (req : gmap string JS.value) (w : world) :
  ∃ resp w',
    post_api_register req w = (Return resp, w')
    ∧ (status resp = 400 ∨ status resp = 201 ∨ status resp = 500)
    ∧ (status resp = 400
       ↔ ∃ k, k ∈ required_fields ∧ JS.truthy (field req k) = false)
    ∧ (status resp = 400 → w' = w)
    ∧ (status resp = 500 → database w' = database w)
    ∧ (status resp = 201 → ∃ r, rows (database w') = rows (database w) ++ [r])
    ∧ (∃ new, rows (database w') = rows (database w) ++ new)
    ∧ year w' = year w.
Proof.
  destruct (post_api_register_returns req w) as (resp & w' & E).
  exists resp, w'. split; [exact E|].
  pose proof (post_api_register_year req w w' resp E) as Hy.
  rewrite <- missingFields_nonempty.
  destruct (post_api_register_table req w w' resp E)
    as [(Hs & Hm & ->)|[(-> & Hm & Hdb)|(Hs & Hm & _ & n & e & d & a & v & _ & _ & Hdb)]].
  - rewrite Hs. repeat split; auto; try discriminate.
    exists []. now rewrite app_nil_r.
  - simpl status. rewrite Hdb. repeat split; auto; try discriminate.
    + intros Hne. contradiction.
    + exists []. now rewrite app_nil_r.
  - rewrite Hs, Hdb. simpl rows. repeat split; eauto; try discriminate.
    intros Hne. contradiction.
Qed.

(** ** Sequence numbers and failed requests *)

(** X4. Requests that are rejected or that fail inside consume no
    sequence number. From a table that holds the numbers 1 to [k] of the
    year and nothing else of that year, any requests, valid or not,
    served one after the other under any fault plan, are all answered,
    and those that are accepted are assigned, in the order of their
    arrival, the numbers [k + 1], [k + 2], ... without a gap, as long as
    1000 is not passed; the table gains exactly these numbers. *)
Theorem failures_consume_no_number
    (reqs : list (gmap string JS.value)) (w : world) (k : Z) (regs0 : list string) :
  regs (database w) = regs0 ++ issued (year w) k →
  unused_year (year w) regs0 →
  0 ≤ k → k + Z.of_nat (length reqs) ≤ 1000 →
  ∃ resps w' m,
    serve_registrations reqs w = (Return resps, w')
    ∧ length resps = length reqs
    ∧ 0 ≤ m ≤ Z.of_nat (length reqs)
    ∧ omap assigned resps = numbered (year w) <$> seqZ (k + 1) m
    ∧ regs (database w') = regs0 ++ issued (year w) (k + m).
Proof.
  revert w k. induction reqs as [|req reqs IH]; intros w k Hregs Hun Hk Hlen.
  - exists [], w, 0. simpl. rewrite Z.add_0_r. repeat split; auto; lia.
  - simpl length in Hlen.
    destruct (post_api_register_returns req w) as (resp & w1 & E1).
    pose proof (post_api_register_year req w w1 resp E1) as Hy.
    assert (Hcases :
      (assigned resp = None ∧ regs (database w1) = regs0 ++ issued (year w) k)
      ∨ (assigned resp = Some (numbered (year w) (k + 1))
         ∧ regs (database w1) = regs0 ++ issued (year w) (k + 1))).
    { destruct (post_api_register_cases req w)
        as [[_ E]|[(_ & err & w0 & T & E)|(_ & _ & _ & _ & n & e & d & a & v & _ & _ & E)]];
        rewrite E in E1; injection E1 as <- <-.
      - left. auto.
      - left. split; [reflexivity|].
        apply register_attempt_throw in T as (_ & T & _). simpl. now rewrite T.
      - right. pose proof (allocation_after _ k _ _ Hregs Hun ltac:(lia)) as Halloc.
        replace (Z.min k 999 + 1) with (k + 1) in Halloc by lia.
        unfold created, assigned. simpl. rewrite regs_inserted, Halloc, Hregs.
        split; [reflexivity|]. rewrite <- app_assoc, <- issued_succ by lia. reflexivity. }
    rewrite <- Hy in Hun.
    destruct Hcases as [[Ha Hregs1]|[Ha Hregs1]]; rewrite <- Hy in Hregs1.
    + destruct (IH w1 k Hregs1 Hun Hk ltac:(lia)) as (resps & w2 & m & E2 & Hl & Hm & Ho & Hr).
      exists (resp :: resps), w2, m. rewrite Hy in *.
      split; [now apply serve_registrations_cons with (w1 := w1)|].
      split; [simpl; now rewrite Hl|]. split; [simpl length; lia|].
      split; [|exact Hr].
      change (omap assigned (resp :: resps))
        with (match assigned resp with
              | Some y => y :: omap assigned resps
              | None => omap assigned resps
              end).
      now rewrite Ha.
    + destruct (IH w1 (k + 1) Hregs1 Hun ltac:(lia) ltac:(lia))
        as (resps & w2 & m & E2 & Hl & Hm & Ho & Hr).
      exists (resp :: resps), w2, (m + 1). rewrite Hy in *.
      split; [now apply serve_registrations_cons with (w1 := w1)|].
      split; [simpl; now rewrite Hl|]. split; [simpl length; lia|]. split.
      * change (omap assigned (resp :: resps))
          with (match assigned resp with
                | Some y => y :: omap assigned resps
                | None => omap assigned resps
                end).
        rewrite Ha, Ho. rewrite (seqZ_cons (k + 1) (m + 1)) by lia.
        rewrite fmap_cons. do 3 f_equal; lia.
      * rewrite Hr. do 2 f_equal. lia.
Qed.

Lemma failures_consume_no_number_witness :
  ∃ resps w',
    serve_registrations [ada; ada; two_absent; numeric_name; ada]
      (mkWorld empty_table 2025 third_call_fails [] [])
    = (Return resps, w')
    ∧ status <$> resps = [201; 500; 400; 500; 201]
    ∧ omap assigned resps = ["COL2025001"; "COL2025002"].
Proof.
  pose (w := mkWorld empty_table 2025 third_call_fails [] []).
  destruct (failures_consume_no_number
              [ada; ada; two_absent; numeric_name; ada] w 0 [])
    as (resps & w' & m & E & _ & _ & _ & _).
  - reflexivity.
  - apply Forall_nil_2.
  - lia.
  - simpl. lia.
  - pose proof E as E'. vm_compute in E'. injection E' as <- <-.
    eexists _, _. split; [exact E|]. split; reflexivity.
Defined.

(** X5. Once the numbers 1 to 1000 of the year are in the table, the year
    is closed for good: whatever is submitted afterwards in that year,
    under whatever fault plan, every request is answered 400 or with the
    internal error, none is accepted, and the table stays as it is. *)
Theorem year_is_closed_after_1000
    (reqs : list (gmap string JS.value)) (w : world) (regs0 : list string) :
  regs (database w) = regs0 ++ issued (year w) 1000 →
  unused_year (year w) regs0 →
  ∃ resps w',
    serve_registrations reqs w = (Return resps, w')
    ∧ length resps = length reqs
    ∧ Forall (λ r, status r = 400 ∨ r = internal_server_error) resps
    ∧ database w' = database w.
Proof.
  revert w. induction reqs as [|req reqs IH]; intros w Hregs Hun.
  - exists [], w. auto.
  - destruct (post_api_register_returns req w) as (resp & w1 & E1).
    pose proof (post_api_register_year req w w1 resp E1) as Hy.
    assert (Hstep : (status resp = 400 ∨ resp = internal_server_error)
                    ∧ database w1 = database w).
    { destruct (post_api_register_table req w w1 resp E1)
        as [(Hs & _ & ->)|[(-> & _ & Hdb)|(_ & Hm & Hnew & _)]]; auto.
      exfalso. apply Hnew.
      destruct (register_after_1000 req w regs0 Hregs Hun Hm) as (-> & Hin & _).
      exact Hin. }
    destruct Hstep as [Hresp Hdb].
    destruct (IH w1) as (resps & w2 & E2 & Hl & Hall & Hdb2).
    { now rewrite Hdb, Hy. }
    { now rewrite Hy. }
    exists (resp :: resps), w2.
    split; [now apply serve_registrations_cons with (w1 := w1)|].
    split; [simpl; now rewrite Hl|]. split; [now constructor | congruence].
Qed.

Lemma year_is_closed_after_1000_witness :
  let w := (serve_registrations (replicate 1000 ada) (fresh 2025)).2 in
  ∃ resps w',
    serve_registrations [ada; two_absent; ada] w = (Return resps, w')
    ∧ Forall (λ r, status r = 400 ∨ r = internal_server_error) resps
    ∧ database w' = database w.
Proof.
  destruct thousand_registrations as (w0 & E & _ & Hy & Hregs).
  rewrite E. simpl snd. intros w. subst w.
  destruct (year_is_closed_after_1000 [ada; two_absent; ada] w0 [])
    as (resps & w' & E' & _ & Hall & Hdb).
  - now rewrite Hy.
  - apply Forall_nil_2.
  - exists resps, w'. auto.
Defined.

(** ** The listing route under faults *)

Lemma get_api_students_fault (query : gmap string string) (w : world) (err : error) :
  next_fault w = Some err →
  get_api_students query w
  = (Return internal_server_error,
     logged "Fetch students error:" err
       (after_call (listing_query query) (database w) w)).
Proof.
  intros Hf. unfold get_api_students, try_catch, mbind, io_bind, dbAll, listing_query.
  destruct (query !! "department") as [d|]; [destruct (JS.truthy (JS.Str d))|];
    rewrite (driver_fault _ _ _ Hf); reflexivity.
Qed.

(** X6. The listing route never writes. Whatever the query and the world,
    it answers, sends exactly one statement, and leaves the table and
    the clock as they were. It answers 200 with nothing on the console
    when that statement succeeds; when it fails, the answer is the fixed
    500 body and the error goes to the console under the label
    "Fetch students error:". *)
Theorem listing_is_read_only (query : gmap string string) (w : world) :
  ∃ resp w',
    get_api_students query w = (Return resp, w')
    ∧ database w' = database w
    ∧ year w' = year w
    ∧ trace w' = trace w ++ [listing_query query]
    ∧ ((next_fault w = None ∧ status resp = 200 ∧ console w' = console w)
       ∨ ∃ err, next_fault w = Some err
           ∧ resp = mkResponse 500 (Failure "Internal Server Error")
           ∧ console w' = console w ++ [("Fetch students error:", err)]).
Proof.
  destruct (next_fault w) as [err|] eqn:Hf.
  - eexists _, _. split; [apply (get_api_students_fault query w err Hf)|].
    repeat split. right. exists err. auto.
  - eexists _, _. split; [apply (get_api_students_ok query w Hf)|].
    repeat split. left. auto.
Qed.

(** ** Ids and the order of the listing *)

Lemma max_id_ge (rs : list Student.t) (r : Student.t) :
  r ∈ rs → Student.id r ≤ max_id rs.
Proof.
  induction rs as [|x rs IH]; intros Hr; [by apply elem_of_nil in Hr|].
  simpl. apply elem_of_cons in Hr as [->|Hr]; [lia|]. specialize (IH Hr). lia.
Qed.

Lemma older_first_snoc (rs : list Student.t) (r : Student.t) :
  older_first rs → max_id rs < Student.id r → older_first (rs ++ [r]).
Proof.
  intros Hrs Hr. apply StronglySorted_app_2.
  - intros x1 x2 Hx1 ->%list_elem_of_singleton.
    pose proof (max_id_ge rs x1 Hx1). lia.
  - exact Hrs.
  - repeat constructor.
Qed.

Lemma older_first_inserted (t : table) (reg n e d a v : string) :
  older_first (rows t) → older_first (rows (inserted t reg n e d a v)).
Proof. intros H. apply older_first_snoc; [exact H | simpl; lia]. Qed.

Lemma older_first_filter (P : Student.t → Prop) `{!∀ r, Decision (P r)}
    (rs : list Student.t) :
  older_first rs → older_first (filter P rs).
Proof.
  induction 1 as [|x rs Hrs IH Hx]; [constructor|].
  rewrite filter_cons. destruct (decide (P x)); [|exact IH].
  constructor; [exact IH|].
  rewrite Forall_forall in *. intros y [_ Hy]%list_elem_of_filter. auto.
Qed.

Lemma older_first_reverse (rs : list Student.t) :
  older_first rs → StronglySorted id_desc (reverse rs).
Proof.
  induction 1 as [|x rs Hrs IH Hx]; [constructor|].
  rewrite reverse_cons. apply StronglySorted_app_2.
  - intros x1 x2 Hx1 ->%list_elem_of_singleton.
    rewrite elem_of_reverse in Hx1. rewrite Forall_forall in Hx. specialize (Hx x1 Hx1). unfold id_desc. lia.
  - exact IH.
  - repeat constructor.
Qed.

Lemma older_first_same_id (rs : list Student.t) (x y : Student.t) :
  older_first rs → x ∈ rs → y ∈ rs → Student.id x = Student.id y → x = y.
Proof.
  induction 1 as [|z rs Hrs IH Hz]; intros Hx Hy E; [by apply elem_of_nil in Hx|].
  rewrite Forall_forall in Hz.
  apply elem_of_cons in Hx as [->|Hx]; apply elem_of_cons in Hy as [->|Hy]; auto.
  - specialize (Hz y Hy). lia.
  - specialize (Hz x Hx). lia.
Qed.

(** ORDER BY id DESC on rows whose ids grow with their position: the rows
    come out in reverse. *)
Lemma sort_id_desc_reverse (rs : list Student.t) :
  older_first rs → merge_sort id_desc rs = reverse rs.
Proof.
  intros H. apply (StronglySorted_unique_strong id_desc).
  - intros x1 x2 Hx1 Hx2 H12 H21.
    rewrite merge_sort_Permutation in Hx1. rewrite elem_of_reverse in Hx2.
    apply (older_first_same_id rs); auto. unfold id_desc in *. lia.
  - apply StronglySorted_merge_sort; apply _.
  - now apply older_first_reverse.
  - rewrite merge_sort_Permutation. symmetry. apply reverse_Permutation.
Qed.

(** X7. When the ids of the stored rows grow along their insertion order
    (as they do in a table filled by the registration route), the
    listing, its read succeeding, returns the records newest first:
    without a department parameter, or with an empty one, the rows in
    reverse insertion order; with a department parameter, the rows of
    that department in reverse insertion order. *)
Theorem listing_is_newest_first (query : gmap string string) (w : world) :
  next_fault w = None →
  older_first (rows (database w)) →
  ∃ students w',
    get_api_students query w = (Return (mkResponse 200 (Students students)), w')
    ∧ (query !! "department" = None ∨ query !! "department" = Some "" →
       students = reverse (rows (database w)))
    ∧ (∀ d, query !! "department" = Some d → d ≠ "" →
         students = reverse (filter (λ r, Student.department r = d) (rows (database w)))).
Proof.
  intros Hf Hold. eexists _, _. split; [apply (get_api_students_ok query w Hf)|].
  unfold selected, listing_query. split.
  - intros [-> | ->]; now apply sort_id_desc_reverse.
  - intros d -> Hd. rewrite truthy_nonempty by exact Hd.
    now apply sort_id_desc_reverse, older_first_filter.
Qed.

Lemma listing_is_newest_first_witness :
  ∃ w',
    get_api_students ∅ (mkWorld three_students 2025 [] [] [])
    = (Return (mkResponse 200 (Students
         [Student.mk 3 "COL2025003" "Cy" "cy@example.org" "Physics" "3 Main St" "A";
          Student.mk 2 "COL2025002" "Bob" "bob@example.org" "Biology" "2 Main St" "B";
          Student.mk 1 "COL2025001" "Ada" "ada@example.org" "Physics" "1 Main St" "A"])), w').
Proof.
  pose (w := mkWorld three_students 2025 [] [] []).
  assert (Hold : older_first (rows (database w))).
  { repeat constructor; simpl; lia. }
  destruct (listing_is_newest_first ∅ w eq_refl Hold) as (students & w' & E & Hall & _).
  rewrite (Hall (or_introl eq_refl)) in E. exists w'. exact E.
Defined.

(** X8. Registering and then listing. After an accepted registration in a
    table whose ids grow along the rows, a listing whose read succeeds
    has the new record at its head, followed by the older records newest
    first. With a department parameter [d] (not empty) the new record is
    listed, again at the head, exactly when its stored department, which
    is the submitted one trimmed, equals [d]. *)
Theorem registered_is_listed_first
    (req : gmap string JS.value) (query : gmap string string)
    (w w1 : world) (resp : response) :
  post_api_register req w = (Return resp, w1) →
  status resp = 201 →
  older_first (rows (database w)) →
  next_fault w1 = None →
  ∃ new submitted students w2,
    rows (database w1) = rows (database w) ++ [new]
    ∧ field req "department" = JS.Str submitted
    ∧ Student.department new = JS.trim submitted
    ∧ get_api_students query w1 = (Return (mkResponse 200 (Students students)), w2)
    ∧ (query !! "department" = None →
       students = new :: reverse (rows (database w)))
    ∧ (∀ d, query !! "department" = Some d → d ≠ "" →
         students
         = (if decide (JS.trim submitted = d) then [new] else [])
           ++ reverse (filter (λ r, Student.department r = d) (rows (database w)))).
Proof.
  intros H Hs Hold Hf.
  destruct (post_api_register_table req w w1 resp H)
    as [(Hs' & _)|[(-> & _)|(_ & _ & _ & n & e & d0 & a & v & HF & _ & Hdb)]];
    [congruence | discriminate |].
  destruct HF as (_ & _ & F3 & _ & _).
  assert (Hold1 : older_first (rows (database w1))).
  { rewrite Hdb. now apply older_first_inserted. }
  pose proof (get_api_students_ok query w1 Hf) as E.
  eexists _, d0, _, _. rewrite Hdb in *. simpl rows in *.
  split; [reflexivity|]. split; [exact F3|]. split; [reflexivity|].
  split; [exact E|]. unfold selected, listing_query. simpl rows. split.
  - intros ->. rewrite sort_id_desc_reverse by exact Hold1. now rewrite reverse_snoc.
  - intros d -> Hd. rewrite truthy_nonempty by exact Hd.
    rewrite sort_id_desc_reverse by now apply older_first_filter.
    rewrite filter_app, reverse_app.
    f_equal. rewrite filter_cons, filter_nil. simpl.
    destruct (decide (JS.trim d0 = d)); reflexivity.
Qed.

Lemma registered_is_listed_first_witness :
  ∃ w1 w2,
    post_api_register ada (mkWorld three_students 2025 [] [] [])
    = (Return (accepted "COL2025004" ada), w1)
    ∧ get_api_students {[ "department" := "Physics" ]} w1
      = (Return (mkResponse 200 (Students
           [Student.mk 4 "COL2025004" "Ada" "ada@example.org" "Physics" "1 Main St" "A";
            Student.mk 3 "COL2025003" "Cy" "cy@example.org" "Physics" "3 Main St" "A";
            Student.mk 1 "COL2025001" "Ada" "ada@example.org" "Physics" "1 Main St" "A"])), w2).
Proof.
  pose (w := mkWorld three_students 2025 [] [] []).
  pose (query := {[ "department" := "Physics" ]} : gmap string string).
  destruct (post_api_register_returns ada w) as (resp & w1 & E).
  pose proof E as E'. vm_compute in E'. injection E' as <- <-.
  assert (Hold : older_first (rows (database w))).
  { repeat constructor; simpl; lia. }
  destruct (registered_is_listed_first ada query w _ _ E eq_refl Hold eq_refl)
    as (new & submitted & students & w2 & Hrows & F & _ & EL & _ & Hdep).
  vm_compute in F. injection F as <-.
  vm_compute in Hrows. injection Hrows as <-.
  rewrite (Hdep "Physics" eq_refl ltac:(discriminate)) in EL.
  eexists _, w2. split; [exact E | exact EL].
Defined.

(** ** White space around the stored attributes *)

Lemma append_nil_r (s : string) : s +:+ "" = s.
Proof.
  induction s as [|c s IH]; [reflexivity|].
  change (String c (s +:+ "") = String c s). now rewrite IH.
Qed.

Lemma append_assoc (a b c : string) : (a +:+ b) +:+ c = a +:+ (b +:+ c).
Proof.
  induction a as [|x a IH]; [reflexivity|].
  change (String x ((a +:+ b) +:+ c) = String x (a +:+ (b +:+ c))). now rewrite IH.
Qed.

Lemma rev_app_rev_app (s t u : string) :
  String.rev_app (String.rev_app s t) u = String.rev_app t (s +:+ u).
Proof.
  revert t. induction s as [|c s IH]; intros t; simpl; [reflexivity|].
  now rewrite IH.
Qed.

Lemma rev_involutive (s : string) : String.rev (String.rev s) = s.
Proof. unfold String.rev. rewrite rev_app_rev_app. simpl. apply append_nil_r. Qed.

Lemma rev_app_spec (s t : string) : String.rev_app s t = String.rev s +:+ t.
Proof.
  unfold String.rev. revert t. induction s as [|c s IH]; intros t; simpl; [reflexivity|].
  rewrite IH, (IH (String c "")), append_assoc. reflexivity.
Qed.

Lemma rev_append (a b : string) :
  String.rev (a +:+ b) = String.rev b +:+ String.rev a.
Proof.
  unfold String.rev at 1.
  assert (H : ∀ c, String.rev_app (a +:+ b) c = String.rev_app b (String.rev_app a c)).
  { induction a as [|x a IH]; intros c; simpl; [reflexivity | apply IH]. }
  rewrite H, rev_app_spec. reflexivity.
Qed.

Lemma trimStart_not_white (s : string) : starts_white (JS.trimStart s) = false.
Proof.
  induction s as [|c s IH]; [reflexivity|]. simpl.
  destruct (JS.is_white c) eqn:E; [exact IH | exact E].
Qed.

Lemma trimStart_suffix (s : string) : ∃ v, s = v +:+ JS.trimStart s.
Proof.
  induction s as [|c s [v IH]]; [now exists ""|]. simpl.
  destruct (JS.is_white c).
  - exists (String c v). change (String c s = String c (v +:+ JS.trimStart s)).
    now rewrite <- IH.
  - now exists "".
Qed.

Lemma trimEnd_prefix (s : string) : ∃ u, s = JS.trimEnd s +:+ u.
Proof.
  unfold JS.trimEnd. destruct (trimStart_suffix (String.rev s)) as [v Hv].
  exists (String.rev v).
  rewrite <- rev_append, <- Hv. symmetry. apply rev_involutive.
Qed.

(** [trim] leaves no white space at either end. *)
Lemma trim_trimmed (s : string) : trimmed (JS.trim s).
Proof.
  unfold JS.trim. split.
  - pose proof (trimStart_not_white s) as Hs.
    destruct (trimEnd_prefix (JS.trimStart s)) as [u Hu].
    destruct (JS.trimEnd (JS.trimStart s)) as [|c r]; [reflexivity|].
    rewrite Hu in Hs. exact Hs.
  - unfold ends_white, JS.trimEnd. rewrite rev_involutive. apply trimStart_not_white.
Qed.

(** ** The shape of the stored numbers *)

Lemma latest_in_rows (y : Z) (t : table) (m : Student.t) :
  latest y t = Some m → m ∈ rows t.
Proof.
  unfold latest. intros H.
  set (l := filter _ (rows t)) in H.
  assert (Hm : m ∈ merge_sort reg_no_desc l).
  { destruct (merge_sort reg_no_desc l) as [|x s]; [discriminate|].
    simpl in H. injection H as ->. left. }
  rewrite merge_sort_Permutation in Hm. now apply list_elem_of_filter in Hm as [_ Hm].
Qed.

Lemma string_drop_append_ge (a b : string) (n : nat) :
  string_drop (String.length a + n) (a +:+ b) = string_drop n b.
Proof. induction a as [|c a IH]; simpl; [reflexivity | exact IH]. Qed.

Lemma string_forall_drop (p : ascii → bool) (n : nat) (s : string) :
  string_forall p s = true → string_forall p (string_drop n s) = true.
Proof.
  revert s. induction n as [|n IH]; intros s H; [exact H|].
  destruct s as [|c s]; [reflexivity|]. simpl in *.
  apply andb_true_iff in H as [_ H]. auto.
Qed.

Lemma decimal_value_nonneg (s : string) (acc : Z) :
  string_forall is_digit s = true → 0 ≤ acc → 0 ≤ decimal_value s acc.
Proof.
  revert acc. induction s as [|c s IH]; intros acc H Hacc; [exact Hacc|].
  simpl in *. apply andb_true_iff in H as [Hc Hs]. apply IH; [exact Hs|].
  unfold is_digit in Hc. apply andb_true_iff in Hc as [Hlo _]. lia.
Qed.

(** The last three characters of a well-shaped number are digits. *)
Lemma canonical_last3 (reg : string) :
  canonical reg →
  string_forall is_digit (JS.slice (-3) reg) = true ∧ JS.slice (-3) reg ≠ "".
Proof.
  intros (y & ds & -> & _ & Hds & Hlen).
  rewrite slice_last_chars.
  assert (E : last_chars 3 ("COL" +:+ y +:+ ds) = string_drop (String.length ds - 3) ds).
  { unfold last_chars. rewrite substring_to_end by lia.
    rewrite <- append_assoc, length_append.
    replace (String.length ("COL" +:+ y) + String.length ds - 3)%nat
      with (String.length ("COL" +:+ y) + (String.length ds - 3))%nat by lia.
    apply string_drop_append_ge. }
  rewrite E. split; [now apply string_forall_drop|].
  intros H0. apply (f_equal String.length) in H0.
  rewrite string_drop_length in H0. simpl in H0. lia.
Qed.

Lemma nextSequence_positive (latest_row : option Student.t) :
  (∀ m, latest_row = Some m → canonical (Student.reg_no m)) →
  1 ≤ nextSequence latest_row.
Proof.
  intros Hc. destruct latest_row as [m|]; [|simpl; lia].
  unfold nextSequence. destruct (JS.truthy _); [|lia].
  destruct (canonical_last3 _ (Hc m eq_refl)) as [Hd Hne].
  rewrite (parseInt10_digits _ Hne Hd).
  pose proof (decimal_value_nonneg _ 0 Hd ltac:(lia)). lia.
Qed.

Lemma sequencePart_digits (n : Z) :
  0 ≤ n →
  string_forall is_digit (sequencePart n) = true
  ∧ (3 ≤ String.length (sequencePart n))%nat.
Proof.
  intros Hn. destruct (Z_le_gt_dec n 999) as [Hs|Hl].
  - destruct (sequencePart_small n ltac:(lia)) as (Hlen & Hd & _). split; [exact Hd | lia].
  - rewrite sequencePart_large by lia.
    destruct (Number_toString_large n ltac:(lia)) as [Hlen Hd]. split; [exact Hd | lia].
Qed.

(** In a table of well-shaped numbers the allocator yields a well-shaped
    number. *)
Lemma allocation_canonical (y : Z) (t : table) :
  Forall canonical (regs t) → canonical (allocation y t).
Proof.
  intros Hall. unfold allocation, prefix.
  assert (Hpos : 1 ≤ nextSequence (latest y t)).
  { apply nextSequence_positive. intros m Hm.
    rewrite Forall_forall in Hall. apply Hall.
    unfold regs. apply list_elem_of_fmap_2. eapply latest_in_rows, Hm. }
  destruct (sequencePart_digits (nextSequence (latest y t)) ltac:(lia)) as [Hd Hlen].
  exists (JS.Number_toString y), (sequencePart (nextSequence (latest y t))).
  split; [apply append_assoc|]. split; [apply Number_toString_numeral|]. auto.
Qed.

Lemma canonical_tag_upper (reg : string) : canonical reg → tag_upper reg.
Proof. intros (y & ds & -> & _) _. apply prefix_append. Qed.

(** ** The worlds the server can reach *)

Lemma get_api_students_table (query : gmap string string) (w w' : world) (resp : response) :
  get_api_students query w = (Return resp, w') → database w' = database w.
Proof.
  intros H. destruct (next_fault w) as [err|] eqn:Hf.
  - rewrite (get_api_students_fault query w err Hf) in H. now injection H as _ <-.
  - rewrite (get_api_students_ok query w Hf) in H. now injection H as _ <-.
Qed.

(** A property of the table that holds of the empty table and is kept by
    every accepted registration holds in every reachable world. *)
Lemma reachable_table (P : table → Prop) :
  P empty_table →
  (∀ t y n e d a v,
     P t → allocation y t ∉ regs t →
     P (inserted t (allocation y t) (JS.trim n) (JS.trim e) (JS.trim d)
          (JS.trim a) (JS.trim v))) →
  ∀ w, reachable w → P (database w).
Proof.
  intros H0 Hins w Hw.
  induction Hw as [y plan | req w w' resp _ IH H | query w w' resp _ IH H | w y plan _ IH].
  - exact H0.
  - destruct (post_api_register_table req w w' resp H)
      as [(_ & _ & ->)|[(_ & _ & ->)|(_ & _ & Hnew & n & e & d & a & v & _ & _ & ->)]];
      auto.
  - now rewrite (get_api_students_table query w w' resp H).
  - exact IH.
Qed.

(** X9. In every world the server can reach from a fresh database, the
    stored registration numbers are pairwise distinct and each has the
    shape COL, the characters of a decimal numeral, then at least three
    digits. *)
Theorem reachable_numbers_are_well_formed (w : world) :
  reachable w →
  NoDup (regs (database w)) ∧ Forall canonical (regs (database w)).
Proof.
  apply (reachable_table (λ t, NoDup (regs t) ∧ Forall canonical (regs t))).
  - split; constructor.
  - intros t y n e d a v [Hnd Hc] Hnew. rewrite regs_inserted. split.
    + apply NoDup_app. split; [assumption|]. split; [|apply NoDup_singleton].
      intros x Hx ->%list_elem_of_singleton. contradiction.
    + apply Forall_app. split; [assumption|].
      apply Forall_singleton. now apply allocation_canonical.
Qed.

Lemma reachable_numbers_are_well_formed_witness :
  ∃ resp w',
    post_api_register ada (fresh 2025) = (Return resp, w')
    ∧ NoDup (regs (database w')) ∧ Forall canonical (regs (database w')).
Proof.
  destruct (post_api_register_returns ada (fresh 2025)) as (resp & w' & E).
  exists resp, w'. split; [exact E|].
  apply reachable_numbers_are_well_formed.
  exact (reachable_register ada (fresh 2025) w' resp (reachable_fresh 2025 []) E).
Defined.

(** X10. In every reachable world the ids of the rows grow strictly along
    the insertion order, start at 1 or above, and none exceeds the
    table's sequence counter: an id is never handed out twice. *)
Theorem reachable_ids_ascend (w : world) :
  reachable w →
  older_first (rows (database w))
  ∧ Forall (λ r, 1 ≤ Student.id r ≤ sequence (database w)) (rows (database w))
  ∧ 0 ≤ sequence (database w).
Proof.
  apply (reachable_table (λ t, older_first (rows t)
           ∧ Forall (λ r, 1 ≤ Student.id r ≤ sequence t) (rows t) ∧ 0 ≤ sequence t)).
  - repeat split; try constructor. simpl. lia.
  - intros t y n e d a v (Hold & Hids & Hseq) _. split; [|split].
    + now apply older_first_inserted.
    + simpl. apply Forall_app. split.
      * eapply Forall_impl; [exact Hids|]. simpl. intros r Hr. lia.
      * apply Forall_singleton. simpl. lia.
    + simpl. lia.
Qed.

Lemma reachable_ids_ascend_witness :
  ∃ w',
    serve_registrations [ada; two_absent; ada] (fresh 2025) = (Return
      [accepted "COL2025001" ada;
       mkResponse 400 (Failure "Missing fields: email, division");
       accepted "COL2025002" ada], w')
    ∧ older_first (rows (database w'))
    ∧ Student.id <$> rows (database w') = [1; 2].
Proof.
  destruct (post_api_register_returns ada (fresh 2025)) as (r1 & w1 & E1).
  destruct (post_api_register_returns two_absent w1) as (r2 & w2 & E2).
  destruct (post_api_register_returns ada w2) as (r3 & w3 & E3).
  assert (Hw3 : reachable w3).
  { eapply reachable_register; [|exact E3].
    eapply reachable_register; [|exact E2].
    eapply reachable_register; [|exact E1]. apply reachable_fresh. }
  destruct (reachable_ids_ascend w3 Hw3) as (Hold & _ & _).
  pose proof E1 as E1'. vm_compute in E1'. injection E1' as <- <-.
  pose proof E2 as E2'. vm_compute in E2'. injection E2' as <- <-.
  pose proof E3 as E3'. vm_compute in E3'. injection E3' as <- <-.
  eexists. split; [|split; [exact Hold | reflexivity]].
  eapply serve_registrations_cons; [exact E1|].
  eapply serve_registrations_cons; [exact E2|].
  eapply serve_registrations_cons; [exact E3 | reflexivity].
Defined.

(** X11. In every reachable world no stored attribute (name, email,
    department, address, division) begins or ends with white space: the
    route stores what [trim] returns. An attribute may be empty. *)
Theorem reachable_attributes_are_trimmed (w : world) :
  reachable w → Forall trimmed_row (rows (database w)).
Proof.
  apply (reachable_table (λ t, Forall trimmed_row (rows t))).
  - constructor.
  - intros t y n e d a v Hall _. simpl. apply Forall_app. split; [assumption|].
    apply Forall_singleton. unfold trimmed_row. simpl.
    repeat split; apply trim_trimmed.
Qed.

Lemma reachable_attributes_are_trimmed_witness :
  ∃ resp w',
    post_api_register ada (fresh 2025) = (Return resp, w')
    ∧ Student.address <$> rows (database w') = ["1 Main St"]
    ∧ Forall trimmed_row (rows (database w')).
Proof.
  destruct (post_api_register_returns ada (fresh 2025)) as (resp & w' & E).
  assert (Hw : reachable w')
    by exact (reachable_register ada (fresh 2025) w' resp (reachable_fresh 2025 []) E).
  pose proof (reachable_attributes_are_trimmed w' Hw) as H.
  pose proof E as E'. vm_compute in E'. injection E' as <- <-.
  eexists _, _. split; [exact E|]. split; [reflexivity | exact H].
Defined.

(** ** A new year *)

Lemma four_digit_years : forallb four_characters (seqZ 1000 9000) = true.
Proof. vm_compute. reflexivity. Qed.

Lemma four_digit_year (y : Z) :
  1000 ≤ y ≤ 9999 →
  String.length (JS.Number_toString y) = 4%nat
  ∧ JS.parseInt10 (JS.Number_toString y) = Some y.
Proof.
  intros Hy.
  pose proof (forallb_seqZ _ _ _ four_digit_years y ltac:(lia)) as H.
  unfold four_characters in H. apply andb_true_iff in H as [H1 H2].
  apply Nat.eqb_eq in H1. apply bool_decide_eq_true in H2. auto.
Qed.

Lemma append_same_length (a b c d : string) :
  a +:+ b = c +:+ d → String.length a = String.length c → a = c.
Proof.
  revert c. induction a as [|x a IH]; intros [|z c] E Hlen; try discriminate; [reflexivity|].
  change (String x (a +:+ b) = String z (c +:+ d)) in E.
  injection E as -> E. f_equal. apply IH; [exact E|]. simpl in Hlen. lia.
Qed.

(** The numbers of one four-digit year do not match the pattern of
    another. *)
Lemma other_year_unmatched (y y' : Z) (s : string) :
  1000 ≤ y ≤ 9999 → 1000 ≤ y' ≤ 9999 → y ≠ y' →
  Sqlite.like (prefix y' +:+ "%") ("COL" +:+ JS.Number_toString y +:+ s) = false.
Proof.
  intros Hy Hy' Hne.
  rewrite like_literal_prefix by apply prefix_no_wildcard.
  unfold prefix. rewrite ci_prefix_append.
  change (string_drop (String.length "COL") ("COL" +:+ JS.Number_toString y +:+ s))
    with (JS.Number_toString y +:+ s).
  rewrite (ci_prefix_numeral (JS.Number_toString y')) by apply Number_toString_numeral.
  apply andb_false_iff. right. apply not_true_is_false. intros [r E]%prefix_inv.
  destruct (four_digit_year y Hy) as [L P], (four_digit_year y' Hy') as [L' P'].
  apply append_same_length in E; [|congruence].
  rewrite E in P. congruence.
Qed.

(** X12. The sequence starts again with each year. In a world without
    store faults, in a year of four digits, with a table whose numbers
    all begin with COL and another year of four digits, a valid
    submission is accepted and assigned the number 001 of the current
    year. *)
Theorem new_year_starts_at_001 (req : gmap string JS.value) (w : world) :
  calm w →
  1000 ≤ year w ≤ 9999 →
  (∀ reg, reg ∈ regs (database w) →
     ∃ y s, 1000 ≤ y ≤ 9999 ∧ y ≠ year w ∧ reg = "COL" +:+ JS.Number_toString y +:+ s) →
  valid_submission req →
  ∃ w', post_api_register req w
        = (Return (accepted ("COL" +:+ JS.Number_toString (year w) +:+ "001") req), w')
    ∧ regs (database w')
      = regs (database w) ++ ["COL" +:+ JS.Number_toString (year w) +:+ "001"].
Proof.
  intros Hcalm Hy Hother Hv.
  assert (Hun : unused_year (year w) (regs (database w))).
  { unfold unused_year. rewrite Forall_forall. intros reg Hreg.
    destruct (Hother reg Hreg) as (y & s & Hy4 & Hne & ->).
    now apply other_year_unmatched. }
  pose proof (allocation_after (year w) 0 (database w) (regs (database w))) as Halloc.
  rewrite app_nil_r in Halloc. specialize (Halloc eq_refl Hun ltac:(lia)).
  change (Z.min 0 999 + 1) with 1 in Halloc.
  destruct (register_valid req w Hv Hcalm) as (w' & E & _ & _ & Hregs).
  { rewrite Halloc. now apply numbered_unused. }
  rewrite Halloc in E, Hregs. exists w'. split; [exact E | exact Hregs].
Qed.

Lemma new_year_starts_at_001_witness :
  ∃ w', post_api_register ada (mkWorld last_year 2025 [] [] [])
        = (Return (accepted "COL2025001" ada), w')
    ∧ regs (database w') = ["COL2024001"; "COL2024002"; "COL2025001"].
Proof.
  pose (w := mkWorld last_year 2025 [] [] []).
  assert (Hother : ∀ reg, reg ∈ regs (database w) →
            ∃ y s, 1000 ≤ y ≤ 9999 ∧ y ≠ year w
                   ∧ reg = "COL" +:+ JS.Number_toString y +:+ s).
  { intros reg Hreg.
    apply elem_of_cons in Hreg as [->|Hreg]; [exists 2024, "001"; simpl; split; [lia|split; [lia|reflexivity]]|].
    apply elem_of_cons in Hreg as [->|Hreg]; [exists 2024, "002"; simpl; split; [lia|split; [lia|reflexivity]]|].
    by apply elem_of_nil in Hreg. }
  exact (new_year_starts_at_001 ada w (Forall_nil_2 _) ltac:(simpl; lia) Hother valid_ada).
Defined.

(** ** The allocator on the server's own data *)

Lemma reachable_canonical (w : world) :
  reachable w → Forall canonical (regs (database w)).
Proof.
  apply (reachable_table (λ t, Forall canonical (regs t))).
  - constructor.
  - intros t y0 n e d a v Hc _. rewrite regs_inserted. apply Forall_app.
    split; [assumption|]. apply Forall_singleton. now apply allocation_canonical.
Qed.

(** X13. On the numbers of a reachable world the allocator's LIKE, which
    SQLite evaluates without regard to ASCII case, selects exactly the
    numbers that start with the prefix of the year: the case folding
    never shows on what the server itself has stored. *)
Theorem reachable_like_is_starts_with (w : world) (y : Z) (r : Student.t) :
  reachable w →
  r ∈ rows (database w) →
  Sqlite.like (("COL" +:+ JS.Number_toString y) +:+ "%") (Student.reg_no r)
  = String.prefix ("COL" +:+ JS.Number_toString y) (Student.reg_no r).
Proof.
  intros Hw Hr. pose proof (reachable_canonical w Hw) as Hc.
  apply (like_year_prefix y). apply canonical_tag_upper.
  rewrite Forall_forall in Hc. apply Hc. unfold regs. now apply list_elem_of_fmap_2.
Qed.

Lemma reachable_like_is_starts_with_witness :
  ∃ resp w',
    post_api_register ada (fresh 2025) = (Return resp, w')
    ∧ ∀ r, r ∈ rows (database w') →
        Sqlite.like "COL2025%" (Student.reg_no r)
        = String.prefix "COL2025" (Student.reg_no r).
Proof.
  destruct (post_api_register_returns ada (fresh 2025)) as (resp & w' & E).
  exists resp, w'. split; [exact E|]. intros r Hr.
  apply (reachable_like_is_starts_with w' 2025 r); [|exact Hr].
  exact (reachable_register ada (fresh 2025) w' resp (reachable_fresh 2025 []) E).
Defined.

Lemma generate_returns (w w1 : world) (r : string) :
  generateRegistrationNumber w = (Return r, w1) →
  next_fault w = None ∧ r = allocation (year w) (database w) ∧ w1 = after_select w.
Proof.
  intros H. destruct (next_fault w) as [err|] eqn:Hf.
  - rewrite (generate_fault w err Hf) in H. discriminate.
  - rewrite (generate_ok w Hf) in H. injection H as <- <-. auto.
Qed.

Lemma dbRun_driver (q : sql) (w : world) :
  dbRun q w = match driver q w with
              | (Return _, w') => (Return tt, w')
              | (Throw e, w') => (Throw e, w')
              end.
Proof.
  unfold dbRun, mbind, io_bind, mret, io_ret.
  destruct (driver q w) as [[?|?] ?]; reflexivity.
Qed.

(** X14. Allocating does not reserve. Two calls of the allocator with no
    INSERT in between return the same number and leave the table as it
    was; once an INSERT with that number has succeeded, an INSERT with
    the number of the second call is refused, by the UNIQUE constraint
    when no fault comes first, and changes nothing. *)
Theorem allocation_does_not_reserve
    (w w1 w2 w3 : world) (r1 r2 : string) (n e d a v n' e' d' a' v' : string) :
  generateRegistrationNumber w = (Return r1, w1) →
  generateRegistrationNumber w1 = (Return r2, w2) →
  dbRun (InsertStudent r1 n e d a v) w2 = (Return tt, w3) →
  r2 = r1
  ∧ database w2 = database w
  ∧ ∃ err w4,
      dbRun (InsertStudent r2 n' e' d' a' v') w3 = (Throw err, w4)
      ∧ database w4 = database w3
      ∧ (next_fault w3 = None → err = unique_violation).
Proof.
  intros H1 H2 H3.
  apply generate_returns in H1 as (_ & Hr1 & ->).
  apply generate_returns in H2 as (_ & Hr2 & ->).
  assert (r2 = r1) as -> by (rewrite Hr1, Hr2; reflexivity).
  split; [reflexivity|]. split; [reflexivity|].
  rewrite dbRun_driver in H3. rewrite dbRun_driver.
  destruct (driver_insert_cases (after_select (after_select w)) r1 n e d a v)
    as [(x & _ & D)|[(_ & _ & D)|(_ & _ & D)]]; rewrite D in H3; try discriminate.
  injection H3 as <-.
  set (w3 := after_call _ _ _).
  assert (Hin : r1 ∈ regs (database w3)).
  { unfold w3. simpl. rewrite regs_inserted. apply elem_of_app. right. left. }
  destruct (driver_insert_cases w3 r1 n' e' d' a' v')
    as [(x & Hx & D')|[(Hf & _ & D')|(_ & Hout & _)]].
  - rewrite D'. eexists _, _. split; [reflexivity|]. split; [reflexivity|]. congruence.
  - rewrite D'. eexists _, _. auto.
  - contradiction.
Qed.

Lemma allocation_does_not_reserve_witness :
  ∃ w1 w2 w3 w4,
    generateRegistrationNumber (fresh 2025) = (Return "COL2025001", w1)
    ∧ generateRegistrationNumber w1 = (Return "COL2025001", w2)
    ∧ dbRun (InsertStudent "COL2025001" "Ada" "a@x.org" "Physics" "1 Main St" "A") w2
      = (Return tt, w3)
    ∧ dbRun (InsertStudent "COL2025001" "Bob" "b@x.org" "Biology" "2 Main St" "B") w3
      = (Throw unique_violation, w4).
Proof.
  destruct (generateRegistrationNumber (fresh 2025)) as [[r1|?] w1] eqn:E1;
    [|vm_compute in E1; discriminate].
  destruct (generateRegistrationNumber w1) as [[r2|?] w2] eqn:E2;
    [|vm_compute in E1; injection E1 as _ <-; vm_compute in E2; discriminate].
  destruct (dbRun (InsertStudent r1 "Ada" "a@x.org" "Physics" "1 Main St" "A") w2)
    as [[[]|?] w3] eqn:E3;
    [|vm_compute in E1; injection E1 as <- <-; vm_compute in E2; injection E2 as _ <-;
      vm_compute in E3; discriminate].
  destruct (allocation_does_not_reserve _ _ _ _ _ _ "Ada" "a@x.org" "Physics" "1 Main St" "A"
              "Bob" "b@x.org" "Biology" "2 Main St" "B" E1 E2 E3)
    as (-> & _ & err & w4 & E4 & _ & Herr).
  assert (Hf : next_fault w3 = None).
  { vm_compute in E1; injection E1 as <- <-. vm_compute in E2; injection E2 as <-.
    vm_compute in E3; injection E3 as <-. reflexivity. }
  rewrite (Herr Hf) in E4.
  assert (Hr : r1 = "COL2025001") by (vm_compute in E1; now injection E1 as <- _).
  subst r1. exists w1, w2, w3, w4. auto.
Defined.

(** ** The statements of a registration request *)

(** X15. What a registration request sends to the store: nothing when it
    answers 400; when it answers 201, the allocator's SELECT with the
    pattern of the year and then one INSERT carrying the allocated
    number and the five trimmed strings, and nothing else; when it
    answers 500, that SELECT alone or that SELECT and one INSERT. *)
Theorem registration_statements (req : gmap string JS.value) (w w' : world) (resp : response) :
  post_api_register req w = (Return resp, w') →
  (status resp = 400 ∧ trace w' = trace w)
  ∨ (status resp = 500
     ∧ (trace w' = trace w ++ [SelectLatestRegNo (prefix (year w) +:+ "%")]
        ∨ ∃ reg n e d a v,
            trace w' = trace w ++ [SelectLatestRegNo (prefix (year w) +:+ "%");
                                   InsertStudent reg n e d a v]))
  ∨ (status resp = 201
     ∧ ∃ n e d a v,
         (field req "name" = JS.Str n ∧ field req "email" = JS.Str e
          ∧ field req "department" = JS.Str d ∧ field req "address" = JS.Str a
          ∧ field req "division" = JS.Str v)
         ∧ trace w'
           = trace w ++ [SelectLatestRegNo (prefix (year w) +:+ "%");
                         InsertStudent (allocation (year w) (database w))
                           (JS.trim n) (JS.trim e) (JS.trim d) (JS.trim a) (JS.trim v)]).
Proof.
  intros H.
  destruct (post_api_register_cases req w)
    as [[_ E]|[(_ & err & w1 & T & E)|(_ & _ & _ & _ & n & e & d & a & v & HF & _ & E)]];
    rewrite E in H; injection H as <- <-.
  - left. auto.
  - right. left. split; [reflexivity|]. simpl.
    apply register_attempt_throw in T as (_ & _ & [T|(n & e & d & a & v & T)]); rewrite T.
    + now left.
    + right. unfold insert_query. eauto 10.
  - right. right. split; [reflexivity|]. exists n, e, d, a, v. split; [exact HF|].
    simpl. now rewrite <- app_assoc.
Qed.

Lemma registration_statements_witness :
  ∃ resp w',
    post_api_register ada (fresh 2025) = (Return resp, w')
    ∧ trace w'
      = [SelectLatestRegNo "COL2025%";
         InsertStudent "COL2025001" "Ada" "ada@example.org" "Physics" "1 Main St" "A"].
Proof.
  destruct (post_api_register_returns ada (fresh 2025)) as (resp & w' & E).
  destruct (registration_statements ada (fresh 2025) w' resp E)
    as [[Hs _]|[[Hs _]|(_ & n & e & d & a & v & (F1 & F2 & F3 & F4 & F5) & Ht)]].
  - exfalso. pose proof E as E'. vm_compute in E'. injection E' as <- _. discriminate.
  - exfalso. pose proof E as E'. vm_compute in E'. injection E' as <- _. discriminate.
  - vm_compute in F1, F2, F3, F4, F5.
    injection F1 as <-. injection F2 as <-. injection F3 as <-.
    injection F4 as <-. injection F5 as <-.
    exists resp, w'. split; [exact E | exact Ht].
Defined.

(** ** Serial registrations of any length (C2) *)

Lemma calm_logged (label : string) (e : error) (w : world) :
  calm w → calm (logged label e w).
Proof. intros H. exact H. Qed.

Lemma post_api_register_calm (req : gmap string JS.value) (w w' : world) (resp : response) :
  calm w → post_api_register req w = (Return resp, w') → calm w'.
Proof.
  intros Hcalm H.
  destruct (post_api_register_cases req w)
    as [[_ E]|[(_ & err & w1 & T & E)|(_ & _ & _ & _ & n & e & d & a & v & _ & _ & E)]];
    rewrite E in H; injection H as _ <-.
  - exact Hcalm.
  - apply calm_logged.
    apply register_attempt_throw_world in T as [->|(n & e & d & a & v & ->)];
      unfold after_select; repeat apply calm_after_call; exact Hcalm.
  - unfold after_select. repeat apply calm_after_call. exact Hcalm.
Qed.

Lemma length_issued (y n : Z) : length (issued y n) = Z.to_nat n.
Proof. unfold issued. now rewrite length_fmap, length_seqZ. Qed.

(** Whatever is submitted and whatever fails: with the numbers 1 to [k]
    of the year in the table, the requests that are accepted are
    assigned the numbers after [k] in order, and 1000 is never passed. *)
Lemma serve_assigns_in_order
    (reqs : list (gmap string JS.value)) (w : world) (k : Z) (regs0 : list string) :
  regs (database w) = regs0 ++ issued (year w) k →
  unused_year (year w) regs0 →
  0 ≤ k ≤ 1000 →
  ∃ resps w' m,
    serve_registrations reqs w = (Return resps, w')
    ∧ length resps = length reqs
    ∧ 0 ≤ m ≤ Z.of_nat (length reqs) ∧ k + m ≤ 1000
    ∧ omap assigned resps = numbered (year w) <$> seqZ (k + 1) m
    ∧ regs (database w') = regs0 ++ issued (year w) (k + m).
Proof.
  revert w k. induction reqs as [|req reqs IH]; intros w k Hregs Hun Hk.
  - exists [], w, 0. simpl. rewrite Z.add_0_r. repeat split; auto; lia.
  - destruct (post_api_register_returns req w) as (resp & w1 & E1).
    pose proof (post_api_register_year req w w1 resp E1) as Hy.
    assert (Hcases :
      (assigned resp = None ∧ regs (database w1) = regs0 ++ issued (year w) k)
      ∨ (k ≤ 999 ∧ assigned resp = Some (numbered (year w) (k + 1))
         ∧ regs (database w1) = regs0 ++ issued (year w) (k + 1))).
    { pose proof (allocation_after _ k _ _ Hregs Hun Hk) as Halloc.
      destruct (post_api_register_cases req w)
        as [[_ E]|[(_ & err & w0 & T & E)|(_ & _ & _ & Hnew & n & e & d & a & v & _ & _ & E)]];
        rewrite E in E1; injection E1 as <- <-.
      - left. auto.
      - left. split; [reflexivity|].
        apply register_attempt_throw in T as (_ & T & _). simpl. now rewrite T.
      - right.
        assert (Hlt : k ≤ 999).
        { destruct (Z_le_gt_dec k 999) as [?|Hgt]; [assumption|]. exfalso.
          replace (Z.min k 999 + 1) with 1000 in Halloc by lia.
          apply Hnew. rewrite Halloc, Hregs. apply elem_of_app. right.
          apply elem_of_issued. exists 1000. split; [lia | reflexivity]. }
        replace (Z.min k 999 + 1) with (k + 1) in Halloc by lia.
        split; [exact Hlt|].
        unfold created, assigned. simpl. rewrite regs_inserted, Halloc, Hregs.
        split; [reflexivity|]. rewrite <- app_assoc, <- issued_succ by lia. reflexivity. }
    rewrite <- Hy in Hun.
    destruct Hcases as [[Ha Hregs1]|(Hlt & Ha & Hregs1)]; rewrite <- Hy in Hregs1.
    + destruct (IH w1 k Hregs1 Hun Hk)
        as (resps & w2 & m & E2 & Hl & Hm & Hb & Ho & Hr).
      exists (resp :: resps), w2, m. rewrite Hy in *.
      split; [now apply serve_registrations_cons with (w1 := w1)|].
      split; [simpl; now rewrite Hl|]. split; [simpl length; lia|].
      split; [exact Hb|]. split; [|exact Hr].
      change (omap assigned (resp :: resps))
        with (match assigned resp with
              | Some y => y :: omap assigned resps
              | None => omap assigned resps
              end).
      now rewrite Ha.
    + destruct (IH w1 (k + 1) Hregs1 Hun ltac:(lia))
        as (resps & w2 & m & E2 & Hl & Hm & Hb & Ho & Hr).
      exists (resp :: resps), w2, (m + 1). rewrite Hy in *.
      split; [now apply serve_registrations_cons with (w1 := w1)|].
      split; [simpl; now rewrite Hl|]. split; [simpl length; lia|].
      split; [lia|]. split.
      * change (omap assigned (resp :: resps))
          with (match assigned resp with
                | Some y => y :: omap assigned resps
                | None => omap assigned resps
                end).
        rewrite Ha, Ho. rewrite (seqZ_cons (k + 1) (m + 1)) by lia.
        rewrite fmap_cons. do 3 f_equal; lia.
      * rewrite Hr. do 2 f_equal. lia.
Qed.

(** Without store faults and with valid submissions only: the submission
    at position [i] is accepted with the number [k + i + 1] as long as
    that is at most 1000, and the table ends with the numbers up to
    1000 at most. *)
Lemma serve_valid_calm
    (reqs : list (gmap string JS.value)) (w : world) (k : Z) (regs0 : list string) :
  calm w →
  regs (database w) = regs0 ++ issued (year w) k →
  unused_year (year w) regs0 →
  Forall valid_submission reqs →
  0 ≤ k ≤ 1000 →
  ∃ resps w',
    serve_registrations reqs w = (Return resps, w')
    ∧ regs (database w')
      = regs0 ++ issued (year w) (Z.min (k + Z.of_nat (length reqs)) 1000)
    ∧ ∀ i req, reqs !! i = Some req → k + Z.of_nat i < 1000 →
        resps !! i = Some (accepted (numbered (year w) (k + Z.of_nat i + 1)) req).
Proof.
  revert w k. induction reqs as [|req reqs IH]; intros w k Hcalm Hregs Hun Hv Hk.
  - exists [], w. simpl. rewrite Z.add_0_r, Z.min_l by lia. repeat split; auto.
    intros i req H. discriminate.
  - apply Forall_cons in Hv as [Hv Hvs].
    destruct (Z_le_gt_dec k 999) as [Hlt|Hge].
    + pose proof (allocation_after _ k _ _ Hregs Hun Hk) as Halloc.
      replace (Z.min k 999 + 1) with (k + 1) in Halloc by lia.
      destruct (register_valid req w Hv Hcalm) as (w1 & E1 & Hcalm1 & Hy1 & Hregs1).
      { rewrite Halloc, Hregs. apply numbered_fresh; [assumption | lia]. }
      rewrite Halloc in E1, Hregs1.
      rewrite Hregs, <- app_assoc, <- issued_succ in Hregs1 by lia.
      rewrite <- Hy1 in Hregs1, Hun.
      destruct (IH w1 (k + 1) Hcalm1 Hregs1 Hun Hvs ltac:(lia))
        as (resps & w2 & E2 & Hregs2 & Hpos).
      exists (accepted (numbered (year w) (k + 1)) req :: resps), w2. rewrite Hy1 in *.
      split; [exact (serve_registrations_cons _ _ _ _ _ _ _ E1 E2)|]. split.
      * rewrite Hregs2. do 2 f_equal. simpl length. lia.
      * intros [|i] r Hi Hb; simpl in Hi |- *.
        -- injection Hi as <-. do 3 f_equal. lia.
        -- rewrite (Hpos i r Hi) by lia. do 3 f_equal. lia.
    + assert (k = 1000) as -> by lia.
      destruct (register_after_1000 req w regs0 Hregs Hun
                  (valid_submission_passes req Hv)) as (_ & _ & w1 & E1 & Hdb).
      pose proof (post_api_register_year req w w1 _ E1) as Hy1.
      pose proof (post_api_register_calm req w w1 _ Hcalm E1) as Hcalm1.
      rewrite <- Hdb, <- Hy1 in Hregs. rewrite <- Hy1 in Hun.
      destruct (IH w1 1000 Hcalm1 Hregs Hun Hvs ltac:(lia))
        as (resps & w2 & E2 & Hregs2 & _).
      exists (internal_server_error :: resps), w2. rewrite Hy1 in *.
      split; [exact (serve_registrations_cons _ _ _ _ _ _ _ E1 E2)|]. split.
      * rewrite Hregs2. do 2 f_equal. simpl length. lia.
      * intros i r _ Hb. lia.
Qed.

(** C2. For every sequence of valid submissions, of any length, served
    one after the other within a year that has no number in the table
    yet (the stored numbers spelling COL in capitals where they spell
    it), under any plan of store faults: every submission is answered,
    and the sequence numbers assigned, in the order of assignment, are
    1, 2, ..., [m], each one above the one before, without a gap and
    without a repeat; the table gains exactly these numbers. When no
    store call fails, [m] is the number of submissions, capped at 1000,
    and the submission at position [i], counted from 0, is the one
    assigned [i + 1]. *)
Theorem serial_numbers_are_consecutive
    (reqs : list (gmap string JS.value)) (w : world) :
  Forall tag_upper (regs (database w)) →
  (∀ reg, reg ∈ regs (database w) →
          ¬ starts_with ("COL" +:+ JS.Number_toString (year w)) reg) →
  Forall valid_submission reqs →
  let number := λ k : Z, ("COL" +:+ JS.Number_toString (year w)) +:+ zero_padded 3 k in
  ∃ resps w' m,
    serve_registrations reqs w = (Return resps, w')
    ∧ length resps = length reqs
    ∧ 0 ≤ m ≤ Z.of_nat (length reqs)
    ∧ omap assigned resps = number <$> seqZ 1 m
    ∧ regs (database w') = regs (database w) ++ (number <$> seqZ 1 m)
    ∧ (calm w →
       m = Z.min (Z.of_nat (length reqs)) 1000
       ∧ ∀ i req, reqs !! i = Some req → Z.of_nat i < m →
           resps !! i = Some (accepted (number (Z.of_nat i + 1)) req)).
Proof.
  intros Htag Hno Hv number.
  pose proof (unused_year_starts_with (year w) _ Htag Hno) as Hun.
  assert (Hregs : regs (database w) = regs (database w) ++ issued (year w) 0)
    by (unfold issued; simpl; now rewrite app_nil_r).
  assert (Hnum : ∀ k, numbered (year w) k = number k).
  { intros k. unfold numbered, number. now rewrite sequencePart_zero_padded. }
  destruct (serve_assigns_in_order reqs w 0 _ Hregs Hun ltac:(lia))
    as (resps & w' & m & E & Hl & Hm & _ & Ho & Hr).
  change (0 + m) with m in Hr. change (0 + 1) with 1 in Ho.
  exists resps, w', m. split; [exact E|]. split; [exact Hl|]. split; [exact Hm|].
  assert (Hmap : numbered (year w) <$> seqZ 1 m = number <$> seqZ 1 m)
    by (apply list_fmap_ext; intros ? ? _; apply Hnum).
  split; [now rewrite Ho, <- Hmap|]. split; [rewrite Hr; unfold issued; now rewrite Hmap|].
  intros Hcalm.
  destruct (serve_valid_calm reqs w 0 _ Hcalm Hregs Hun Hv ltac:(lia))
    as (resps' & w'' & E' & Hr' & Hpos).
  rewrite E in E'. injection E' as <- <-.
  assert (Hmeq : m = Z.min (Z.of_nat (length reqs)) 1000).
  { rewrite Hr in Hr'. apply app_inv_head in Hr'.
    apply (f_equal length) in Hr'. rewrite !length_issued in Hr'. lia. }
  split; [exact Hmeq|].
  intros i req Hi Hlt. rewrite (Hpos i req Hi) by lia.
  rewrite Hnum. do 3 f_equal.
Qed.

Lemma serial_numbers_are_consecutive_witness :
  ∃ resps w',
    serve_registrations [ada; blank_name; ada] (fresh 2025) = (Return resps, w')
    ∧ omap assigned resps = ["COL2025001"; "COL2025002"; "COL2025003"]
    ∧ resps !! 2%nat = Some (accepted "COL2025003" ada).
Proof.
  assert (Hno : ∀ reg, reg ∈ regs (database (fresh 2025)) →
                  ¬ starts_with ("COL" +:+ JS.Number_toString (year (fresh 2025))) reg).
  { intros reg Hreg. by apply elem_of_nil in Hreg. }
  assert (Hvb : valid_submission blank_name).
  { intros k Hk. unfold required_fields in Hk.
    repeat (apply elem_of_cons in Hk as [->|Hk];
            [eexists; split; [reflexivity | discriminate]|]).
    by apply elem_of_nil in Hk. }
  assert (Hv : Forall valid_submission [ada; blank_name; ada])
    by (repeat constructor; auto using valid_ada).
  destruct (serial_numbers_are_consecutive [ada; blank_name; ada] (fresh 2025)
              (Forall_nil_2 _) Hno Hv)
    as (resps & w' & m & E & _ & _ & Ho & _ & Hcalm).
  destruct (Hcalm (Forall_nil_2 _)) as [-> Hpos].
  exists resps, w'. split; [exact E|]. split; [exact Ho|].
  exact (Hpos 2%nat ada eq_refl ltac:(simpl; lia)).
Defined.
